(** * Icon generator (GenerateIcons/generate.py): a shallow embedding

    The script resizes one master image into eight square icons.  Everything
    it does is an effect on its environment, so the embedding is a state and
    exception monad over a small model of that environment:

    - a file system tree with regular files, directories, dangling
      symbolic links, a write permission on directories and a counter of
      free inodes; the working directory is its root;
    - the set of file handles the process holds open;
    - a chronological trace of the operations that completed (directory
      created, source opened, resize, save, printed line, handle closed).

    The imaging library is an external collaborator.  Its resampling kernel
    is a parameter ([resample]); what it does around the kernel (the
    requested size becomes the size of the result, the target format is
    chosen from the file extension, the source handle is closed by the
    context manager) is written out.

    What the model leaves out: faults of the decoder after the file is
    identified and faults of the encoder and of the device while a file is
    being written (a save fails when its file cannot be opened for writing,
    or not at all), faults of the console ([print] always completes; where
    a call ends with the [print] of the diagnostic, the statement relates
    the call to that [print] instead of claiming a normal return),
    permissions other than the write permission on directories, symbolic
    links other than those that lead nowhere, and other processes. *)

From stdpp Require Import gmap strings list pretty.
From Stdlib Require Import Ascii ZArith Lia.

Set Warnings "-register-all".

(** ** Errors *)

(** The error numbers the modelled system calls can report. *)
Inductive errno := ENOENT | ENOTDIR | EISDIR | EEXIST | EACCES | ENOSPC.

(** Python exception classes.  [OSError_ENOSPC] is a plain [OSError] (no
    dedicated subclass exists for "no space left on device"); the first five
    are the subclasses of [OSError] Python selects from the error number. *)
Inductive exn :=
| FileNotFoundError
| NotADirectoryError
| IsADirectoryError
| FileExistsError
| PermissionError
| OSError_ENOSPC
| UnidentifiedImageError
| ValueError.

Definition exn_of_errno (e : errno) : exn :=
  match e with
  | ENOENT => FileNotFoundError
  | ENOTDIR => NotADirectoryError
  | EISDIR => IsADirectoryError
  | EEXIST => FileExistsError
  | EACCES => PermissionError
  | ENOSPC => OSError_ENOSPC
  end.

#[global] Instance exn_eq_dec : EqDecision exn.
Proof. solve_decision. Defined.

(** [except FileNotFoundError]: the class has no subclass, so the clause
    matches this one constructor. *)
Definition is_FileNotFoundError (e : exn) : bool :=
  match e with FileNotFoundError => true | _ => false end.

Definition is_FileExistsError (e : exn) : bool :=
  match e with FileExistsError => true | _ => false end.

Inductive result (A : Type) :=
| Ok (a : A)
| Err (e : errno).
Arguments Ok {A} a.
Arguments Err {A} e.

(** ** Path names *)

(** A path name is a string, as in the script; the system resolves it
    component by component.  Empty components and [.] are skipped; [..] is
    kept, and resolved against the tree.  The working directory is the root
    of the tree, so that an absolute name and a relative one resolve from
    the same place, and [..] at the root stays there. *)
Abbreviation path := (list string).

Definition emit (acc : string) (l : path) : path :=
  if decide (acc = "") then l
  else if decide (acc = ".") then l
  else acc :: l.

Fixpoint components_aux (s acc : string) : path :=
  match s with
  | EmptyString => emit acc []
  | String c r =>
      if decide (c = "/"%char) then emit acc (components_aux r "")
      else components_aux r (acc +:+ String c "")
  end.

Definition components (s : string) : path := components_aux s "".

(** What follows the last slash of a name.  A name that ends in a slash, or
    in [/.], asks for a directory. *)
Fixpoint last_segment (s acc : string) : string :=
  match s with
  | EmptyString => acc
  | String c r =>
      if decide (c = "/"%char) then last_segment r ""
      else last_segment r (acc +:+ String c "")
  end.

Definition dir_required (name : string) : bool :=
  bool_decide (last_segment name "" = "") || bool_decide (last_segment name "" = ".").

(** A list of components without [..]. *)
Definition plain (p : path) : bool := bool_decide (".." ∉ p).

(** [os.path.splitext(name)[1]]: the text from the last dot of the last
    component, a dot that only follows dots at the start of the component
    not counting.  [seen] tells whether a character other than a dot was
    read in the current component, [ext] is the extension found so far. *)
Fixpoint splitext_aux (s : string) (seen : bool) (ext : string) : string :=
  match s with
  | EmptyString => ext
  | String c r =>
      if decide (c = "/"%char) then splitext_aux r false ""
      else if decide (c = "."%char) then
        if seen then splitext_aux r true (String c "")
        else splitext_aux r false ""
      else splitext_aux r true
             (if decide (ext = "") then "" else ext +:+ String c "")
  end.

Definition splitext_ext (s : string) : string := splitext_aux s false "".

Definition lower_char (c : ascii) : ascii :=
  let n := nat_of_ascii c in
  if (65 <=? n)%nat && (n <=? 90)%nat then ascii_of_nat (n + 32) else c.

Fixpoint lower (s : string) : string :=
  match s with
  | EmptyString => EmptyString
  | String c r => String (lower_char c) (lower r)
  end.

(** ** The environment *)

Inductive format := PNG | JPEG | BMP | GIF.

#[global] Instance format_eq_dec : EqDecision format.
Proof. solve_decision. Defined.

(** The resampling filters of the library ([Image.Resampling]). *)
Inductive Resampling := NEAREST | BOX | BILINEAR | HAMMING | BICUBIC | LANCZOS.

Inductive event :=
| EvMkdir (p : path)
| EvOpen (f : string)
| EvClose (f : string)
| EvResize (size : Z * Z)
| EvSave (f : string)
| EvPrint (line : string).

(** Pixel data: the raw samples of a raster. *)
Definition pixels : Type := list N.

(** What a regular file holds, as far as the decoder can tell: an image in
    some format, or data no decoder identifies. *)
Inductive content :=
| Encoded (fmt : format) (size : Z * Z) (px : pixels)
| Undecodable (data : string).

(** [Dangling] is a symbolic link that leads nowhere: a link to a name in a
    directory that does not exist.  Resolving a name through it fails with
    [ENOENT], also for creating the file it points to, while the link itself
    occupies its name in its directory. *)
Inductive node :=
| File (c : content)
| Dir (writable : bool) (entries : gmap string node)
| Dangling.

Record World := mkWorld {
  fs : node;
  inodes : nat;
  open_files : list string;
  trace : list event
}.

Definition saved (evs : list event) : list string :=
  omap (λ ev, match ev with EvSave f => Some f | _ => None end) evs.

(** *** Name resolution *)

(** [lookup_path p n] resolves the components [p], none of them [..], from
    the node [n], following links. *)
Fixpoint lookup_path (p : path) (n : node) : result node :=
  match p with
  | [] => match n with Dangling => Err ENOENT | _ => Ok n end
  | name :: rest =>
      match n with
      | File _ => Err ENOTDIR
      | Dangling => Err ENOENT
      | Dir _ es =>
          match es !! name with
          | None => Err ENOENT
          | Some child => lookup_path rest child
          end
      end
  end.

(** [canon root p acc]: the components, without [..], of the place [p]
    leads to from the directory of components [acc].  Each component is
    taken from a directory that exists; the last one need not exist
    itself. *)
Fixpoint canon (root : node) (p acc : path) : result path :=
  match p with
  | [] => Ok acc
  | x :: r =>
      match lookup_path acc root with
      | Err e => Err e
      | Ok (Dir _ _) =>
          if decide (x = "..") then canon root r (removelast acc)
          else canon root r (acc ++ [x])
      | Ok _ => Err ENOTDIR
      end
  end.

Definition resolve (p : path) (root : node) : result node :=
  match canon root p [] with
  | Ok q => lookup_path q root
  | Err e => Err e
  end.

(** [os.stat(name)] *)
Definition stat (name : string) (root : node) : result node :=
  if decide (name = "") then Err ENOENT
  else
    match resolve (components name) root with
    | Ok (File c) => if dir_required name then Err ENOTDIR else Ok (File c)
    | r => r
    end.

(** [update p leaf n] resolves the directory holding the last component of
    [p] and replaces the entry of that name by what [leaf] makes of it;
    [leaf] sees the write permission of the directory and the present
    entry. *)
Fixpoint update (p : path) (leaf : bool → option node → result node)
    (n : node) : result node :=
  match p with
  | [] => Err EISDIR
  | name :: rest =>
      match n with
      | File _ => Err ENOTDIR
      | Dangling => Err ENOENT
      | Dir wr es =>
          match rest with
          | [] =>
              match leaf wr (es !! name) with
              | Ok new => Ok (Dir wr (<[name := new]> es))
              | Err e => Err e
              end
          | _ :: _ =>
              match es !! name with
              | None => Err ENOENT
              | Some child =>
                  match update rest leaf child with
                  | Ok child' => Ok (Dir wr (<[name := child']> es))
                  | Err e => Err e
                  end
              end
          end
      end
  end.

(** Creating an entry needs write permission on the directory and a free
    inode. *)
Definition create (free : nat) (dir_writable : bool) (new : node) : result node :=
  if dir_writable then
    match free with O => Err ENOSPC | S _ => Ok new end
  else Err EACCES.

(** [open(name, "w+b")] followed by the write of [c]: an existing regular
    file is truncated and rewritten, a missing one is created. *)
Definition leaf_write (c : content) (free : nat)
    (dir_writable : bool) (cur : option node) : result node :=
  match cur with
  | Some (Dir _ _) => Err EISDIR
  | Some (File _) => Ok (File c)
  | Some Dangling => Err ENOENT
  | None => create free dir_writable (File c)
  end.

(** [mkdir(name)]: the name must be free. *)
Definition leaf_mkdir (free : nat)
    (dir_writable : bool) (cur : option node) : result node :=
  match cur with
  | Some _ => Err EEXIST
  | None => create free dir_writable (Dir true ∅)
  end.

Definition exists_at (p : path) (root : node) : bool :=
  match lookup_path p root with Ok _ => true | Err _ => false end.

Definition charge (p : path) (root : node) (free : nat) : nat :=
  if exists_at p root then free else pred free.

(** *** The monad: state, and exceptions that keep the state *)

Inductive outcome (A : Type) :=
| Returned (a : A)
| Raised (e : exn).
Arguments Returned {A} a.
Arguments Raised {A} e.

Definition M (A : Type) : Type := World → outcome A * World.

Definition ret {A} (a : A) : M A := λ w, (Returned a, w).

Definition raise {A} (e : exn) : M A := λ w, (Raised e, w).

Definition bind {A B} (m : M A) (k : A → M B) : M B :=
  λ w, match m w with
       | (Returned a, w1) => k a w1
       | (Raised e, w1) => (Raised e, w1)
       end.

Notation "x <- m ;; k" := (bind m (λ x, k))
  (at level 100, m at next level, right associativity).
Notation "m >> k" := (bind m (λ _, k))
  (at level 100, right associativity).

(** [try: body  except <class>: handler] *)
Definition try_except {A} (body : M A) (catches : exn → bool) (handler : M A) : M A :=
  λ w, match body w with
       | (Returned a, w1) => (Returned a, w1)
       | (Raised e, w1) => if catches e then handler w1 else (Raised e, w1)
       end.

(** [with acquire as r: body], for a context manager whose [__enter__]
    returns the object and whose [__exit__] returns [None]: the exit runs
    on both ways out of the body and an exception of the body is raised
    again after it. *)
Definition with_ {R A} (acquire : M R) (exit_ : R → M unit) (body : R → M A) : M A :=
  λ w, match acquire w with
       | (Raised e, w1) => (Raised e, w1)
       | (Returned r, w1) =>
           match body r w1 with
           | (Returned a, w2) =>
               match exit_ r w2 with
               | (Returned _, w3) => (Returned a, w3)
               | (Raised e', w3) => (Raised e', w3)
               end
           | (Raised e, w2) =>
               match exit_ r w2 with
               | (Returned _, w3) => (Raised e, w3)
               | (Raised e', w3) => (Raised e', w3)
               end
           end
       end.

(** [for x in l: body] *)
Fixpoint for_each {A} (l : list A) (body : A → M unit) : M unit :=
  match l with
  | [] => ret tt
  | x :: r => body x >> for_each r body
  end.

Definition log (ev : event) (w : World) : World :=
  mkWorld (fs w) (inodes w) (open_files w) (trace w ++ [ev]).

(** *** Operating system calls *)

(** [print(line)]: the line goes to the standard output, which takes it. *)
Definition print (line : string) : M unit := λ w, (Returned tt, log (EvPrint line) w).

Definition os_path_exists (name : string) : M bool :=
  λ w, (Returned (match stat name (fs w) with Ok _ => true | Err _ => false end), w).

Definition path_exists (p : path) : M bool :=
  λ w, (Returned (match resolve p (fs w) with Ok _ => true | Err _ => false end), w).

(** [mkdir] at components without [..]. *)
Definition mkdir_at (q : path) : M unit :=
  λ w, match q with
       | [] => (Raised FileExistsError, w)
       | _ :: _ =>
           match update q (leaf_mkdir (inodes w)) (fs w) with
           | Err e => (Raised (exn_of_errno e), w)
           | Ok root =>
               (Returned tt,
                mkWorld root (pred (inodes w)) (open_files w) (trace w ++ [EvMkdir q]))
           end
       end.

Definition os_mkdir (p : path) : M unit :=
  λ w, match canon (fs w) p [] with
       | Err e => (Raised (exn_of_errno e), w)
       | Ok q => mkdir_at q w
       end.

(** [os.makedirs], on the reversed list of components: [tail] is the last
    component and [rhead] what precedes it.
<<
    head, tail = path.split(name)
    if head and tail and not path.exists(head):
        try: makedirs(head)
        except FileExistsError: pass
    mkdir(name)
>> *)
Fixpoint makedirs_rev (rname : path) : M unit :=
  match rname with
  | [] => os_mkdir []
  | tail :: rhead =>
      (match rhead with
       | [] => ret tt
       | _ :: _ =>
           ex <- path_exists (rev rhead) ;;
           if negb ex
           then try_except (makedirs_rev rhead) is_FileExistsError (ret tt)
           else ret tt
       end) >>
      os_mkdir (rev (tail :: rhead))
  end.

Definition os_makedirs (name : string) : M unit :=
  if decide (name = "") then raise FileNotFoundError
  else makedirs_rev (rev (components name)).

(** *** The imaging library *)

Section Generator.

(** The library's resampling of pixel data of one size to another size with
    a given filter. *)
Variable resample : Resampling → Z * Z → pixels → Z * Z → pixels.

Record Image := mkImage {
  im_size : Z * Z;
  im_pixels : pixels;
  im_fp : option string
}.

(** [Image.open]: the file is opened for reading and identified.  A file
    that cannot be identified is closed again before the error is raised. *)
Definition Image_open (name : string) : M Image :=
  λ w, match stat name (fs w) with
       | Err e => (Raised (exn_of_errno e), w)
       | Ok Dangling => (Raised FileNotFoundError, w)
       | Ok (Dir _ _) => (Raised IsADirectoryError, w)
       | Ok (File (Undecodable _)) => (Raised UnidentifiedImageError, w)
       | Ok (File (Encoded _ size px)) =>
           (Returned (mkImage size px (Some name)),
            mkWorld (fs w) (inodes w) (name :: open_files w) (trace w ++ [EvOpen name]))
       end.

Fixpoint remove_first (f : string) (l : list string) : list string :=
  match l with
  | [] => []
  | g :: r => if decide (f = g) then r else g :: remove_first f r
  end.

(** [Image.__exit__]: closes the file the image was read from. *)
Definition Image_exit (img : Image) : M unit :=
  λ w, match im_fp img with
       | None => (Returned tt, w)
       | Some f =>
           (Returned tt,
            mkWorld (fs w) (inodes w) (remove_first f (open_files w)) (trace w ++ [EvClose f]))
       end.

(** [Image.resize(size, filter)]: a new image of the requested size, not
    backed by a file.  A request for the size the image already has returns
    a copy. *)
Definition Image_resize (img : Image) (size : Z * Z) (filter : Resampling) : M Image :=
  λ w, if decide (im_size img = size) then
         (Returned (mkImage size (im_pixels img) None), log (EvResize size) w)
       else if (0 <? size.1)%Z && (0 <? size.2)%Z then
         (Returned (mkImage size (resample filter (im_size img) (im_pixels img) size) None),
          log (EvResize size) w)
       else (Raised ValueError, w).

(** The library's table from file extensions to formats, for the formats of
    the model. *)
Definition EXTENSION (ext : string) : option format :=
  if decide (ext = ".png") then Some PNG
  else if decide (ext = ".apng") then Some PNG
  else if decide (ext = ".jpg") then Some JPEG
  else if decide (ext = ".jpeg") then Some JPEG
  else if decide (ext = ".jpe") then Some JPEG
  else if decide (ext = ".jfif") then Some JPEG
  else if decide (ext = ".bmp") then Some BMP
  else if decide (ext = ".gif") then Some GIF
  else None.

(** A name that asks for a directory cannot be opened for writing: the
    error tells whether a regular file is in the way. *)
Definition write_file (name : string) (c : content) : M unit :=
  λ w, if decide (name = "") then (Raised FileNotFoundError, w)
       else
         match canon (fs w) (components name) [] with
         | Err e => (Raised (exn_of_errno e), w)
         | Ok q =>
             if dir_required name then
               match lookup_path q (fs w) with
               | Ok (File _) => (Raised NotADirectoryError, w)
               | _ => (Raised IsADirectoryError, w)
               end
             else
               match update q (leaf_write c (inodes w)) (fs w) with
               | Err e => (Raised (exn_of_errno e), w)
               | Ok root =>
                   (Returned tt,
                    mkWorld root (charge q (fs w) (inodes w)) (open_files w)
                      (trace w ++ [EvSave name]))
               end
         end.

(** [Image.save(name)]: the format follows from the extension of [name]. *)
Definition Image_save (img : Image) (name : string) : M unit :=
  match EXTENSION (lower (splitext_ext name)) with
  | None => raise ValueError
  | Some fmt => write_file name (Encoded fmt (im_size img) (im_pixels img))
  end.

(** ** The script *)

Definition source_file : string := "GenerateIcons/master-icon.png".

Definition output_dir : string := "public/icons".

(** <<
    if not os.path.exists(output_dir):
        os.makedirs(output_dir)
>> *)
Definition startup : M unit :=
  ex <- os_path_exists output_dir ;;
  if negb ex then os_makedirs output_dir else ret tt.

Definition sizes : list Z := [72; 96; 128; 144; 152; 192; 384; 512]%Z.

(** [f"{output_dir}/icon-{size}x{size}.png"] *)
Definition icon_file (size : Z) : string :=
  output_dir +:+ "/icon-" +:+ pretty size +:+ "x" +:+ pretty size +:+ ".png".

Definition created_notice (size : Z) : string :=
  "✅ Created: " +:+ output_dir +:+ "/icon-" +:+ pretty size +:+ "x" +:+ pretty size +:+ ".png".

Definition not_found_notice (source_path : string) : string :=
  "❌ Error: Could not find " +:+ source_path +:+ ". Check your folder names!".

(** The body of the loop, for one size. *)
Definition process_size (img : Image) (size : Z) : M unit :=
  resized_img <- Image_resize img (size, size) LANCZOS ;;
  Image_save resized_img (icon_file size) >>
  print (created_notice size).

(** The [with] statement, which is the whole [try] block. *)
Definition generate_icons_try (source_path : string) : M unit :=
  with_ (Image_open source_path) Image_exit
    (λ img, for_each sizes (process_size img)).

Definition generate_icons (source_path : string) : M unit :=
  try_except (generate_icons_try source_path)
    is_FileNotFoundError
    (print (not_found_notice source_path)).

(** Running the file as a program: the module body, then the call under
    [if __name__ == "__main__"]. *)
Definition main : M unit :=
  startup >> generate_icons source_file.

(** ** Vocabulary of the statements *)

Definition is_dir_node (n : node) : bool :=
  match n with Dir _ _ => true | _ => false end.

(** [os.path.isdir], on components. *)
Definition isdir (p : path) (root : node) : bool :=
  match lookup_path p root with Ok n => is_dir_node n | Err _ => false end.

(** A [leaf] is safe when it never replaces a directory and replaces a
    regular file by a regular file only. *)
Definition leaf_safe (leaf : bool → option node → result node) : Prop :=
  ∀ wr cur new, leaf wr cur = Ok new →
    match cur with
    | Some (Dir _ _) => False
    | Some Dangling => False
    | Some (File _) => ∃ c, new = File c
    | None => True
    end.

(** The name of the icon of a size, and the components of its path. *)
Definition icon_name (size : Z) : string :=
  "icon-" +:+ pretty size +:+ "x" +:+ pretty size +:+ ".png".

Definition icon_path (size : Z) : path := components output_dir ++ [icon_name size].

(** The pixel data [Image_resize] computes, and what a save of the resized
    image to a [.png] name stores. *)
Definition resized (from : Z * Z) (px : pixels) (size : Z * Z) : pixels :=
  if decide (from = size) then px else resample LANCZOS from px size.

Definition icon_content (img : Image) (size : Z) : content :=
  Encoded PNG (size, size) (resized (im_size img) (im_pixels img) (size, size)).

(** The operations one size goes through, and those of a list of sizes. *)
Definition steps (size : Z) : list event :=
  [EvResize (size, size); EvSave (icon_file size); EvPrint (created_notice size)].

Definition schedule (l : list Z) : list event := l ≫= steps.

(** What the model needs to know of a size: it is positive, its file name
    resolves inside the output directory and carries the PNG extension. *)
Definition good_size (size : Z) : bool :=
  (0 <? size)%Z &&
  bool_decide (components (icon_file size) = icon_path size) &&
  bool_decide (icon_file size ≠ "") &&
  bool_decide (EXTENSION (lower (splitext_ext (icon_file size))) = Some PNG) &&
  plain (icon_path size) && negb (dir_required (icon_file size)).

(** The world after the handle on [f] is closed. *)
Definition closed (f : string) (w : World) : World :=
  mkWorld (fs w) (inodes w) (remove_first f (open_files w)) (trace w ++ [EvClose f]).

Definition format_of (c : content) : option format :=
  match c with Encoded fmt _ _ => Some fmt | Undecodable _ => None end.

(** [chain body l w w']: from [w], the body returns normally on every
    element of [l] in turn, and leaves [w']. *)
Inductive chain {A} (body : A → M unit) : list A → World → World → Prop :=
| chain_nil w : chain body [] w w
| chain_cons x l w w1 w2 :
    body x w = (Returned tt, w1) →
    chain body l w1 w2 →
    chain body (x :: l) w w2.

(** What the run of [generate_icons] leaves after the last operation of the
    loop, when the source was opened: the handle is closed, and the
    diagnostic follows when the exception is a [FileNotFoundError]. *)
Definition finish (src : string) (out : outcome unit) (w1 : World) : outcome unit * World :=
  match out with
  | Returned a => (Returned a, closed src w1)
  | Raised e =>
      if is_FileNotFoundError e
      then (Returned tt, log (EvPrint (not_found_notice src)) (closed src w1))
      else (Raised e, closed src w1)
  end.

(** ** Sample environments *)

(** A stand-in for the resampling kernel: every output sample is the first
    sample of the source. *)
Definition first_sample : Resampling → Z * Z → pixels → Z * Z → pixels :=
  λ _ _ px _, take 1 px.

(** An 800 by 600 master image, stored as JPEG. *)
Definition master : content := Encoded JPEG (800, 600)%Z [7; 8; 9]%N.

Definition with_master : gmap string node :=
  {[ "GenerateIcons" := Dir true {[ "master-icon.png" := File master ]} ]}.

(** The master image is there, the output directory is not. *)
Definition fresh_world : World :=
  mkWorld (Dir true with_master) 20 [] [].

(** The master image and an empty output directory are there. *)
Definition ready_world : World :=
  mkWorld (Dir true (<["public" := Dir true {[ "icons" := Dir true ∅ ]}]> with_master))
    20 [] [].

(** As [ready_world], with three free inodes. *)
Definition tight_world : World :=
  mkWorld (Dir true (<["public" := Dir true {[ "icons" := Dir true ∅ ]}]> with_master))
    3 [] [].

(** Nothing is there. *)
Definition empty_world : World := mkWorld (Dir true ∅) 20 [] [].



(** The output path names a regular file. *)
Definition file_at_output : World :=
  mkWorld (Dir true {[ "public" := Dir true {[ "icons" := File (Undecodable "") ]} ]})
    20 [] [].

(** The output path runs through a regular file. *)
Definition file_above_output : World :=
  mkWorld (Dir true {[ "public" := File (Undecodable "") ]}) 20 [] [].

(** The master image and [public] are there, [public] holds a file of its
    own and no [icons]. *)
Definition public_without_icons : World :=
  mkWorld (Dir true (<["public" := Dir true {[ "robots.txt" := File (Undecodable "") ]}]>
                       with_master))
    20 [] [].






(** ** Properties of the file system model *)

Lemma leaf_write_safe c free : leaf_safe (leaf_write c free).
Proof.
  intros wr [[?|? ?|]|] new H; simpl in *; try done.
  inversion H. by eexists.
Qed.

Lemma update_single name leaf wr es :
  update [name] leaf (Dir wr es) =
    match leaf wr (es !! name) with
    | Ok new => Ok (Dir wr (<[name := new]> es))
    | Err e => Err e
    end.
Proof. reflexivity. Qed.

Lemma update_cons name x rest leaf wr es :
  update (name :: x :: rest) leaf (Dir wr es) =
    match es !! name with
    | None => Err ENOENT
    | Some child =>
        match update (x :: rest) leaf child with
        | Ok child' => Ok (Dir wr (<[name := child']> es))
        | Err e => Err e
        end
    end.
Proof. reflexivity. Qed.

(** After an update the path resolves to what the leaf produced. *)
Lemma update_lookup_same p leaf n n' v :
  (∀ wr cur new, leaf wr cur = Ok new → new = v) →
  lookup_path [] v = Ok v →
  update p leaf n = Ok n' →
  lookup_path p n' = Ok v.
Proof.
  intros Hleaf Hv. revert n n'.
  induction p as [|name rest IH]; intros n n' H; [done|].
  destruct n as [c|wr es|]; [done| |done].
  destruct rest as [|x rest].
  - rewrite update_single in H.
    destruct (leaf wr (es !! name)) as [new|] eqn:El; [|done].
    inversion H; subst. simpl. rewrite lookup_insert_eq.
    rewrite (Hleaf _ _ _ El). exact Hv.
  - rewrite update_cons in H.
    destruct (es !! name) as [child|]; [|done].
    destruct (update (x :: rest) leaf child) as [child'|] eqn:Eu; [|done].
    inversion H; subst.
    change (lookup_path (name :: x :: rest) (Dir wr (<[name:=child']> es)))
      with (match (<[name:=child']> es) !! name with
            | None => Err ENOENT
            | Some ch => lookup_path (x :: rest) ch
            end).
    rewrite lookup_insert_eq. eauto.
Qed.

(** Other names of the same directory are not affected. *)
Lemma update_lookup_sibling d a b leaf n n' :
  a ≠ b →
  update (d ++ [a]) leaf n = Ok n' →
  lookup_path (d ++ [b]) n' = lookup_path (d ++ [b]) n.
Proof.
  intros Hab. revert n n'.
  induction d as [|x d IH]; intros n n' H; simpl in *.
  - destruct n as [c|wr es|]; [done| |done].
    destruct (leaf wr (es !! a)); [|done].
    inversion H; subst. simpl. by rewrite lookup_insert_ne.
  - destruct n as [c|wr es|]; [done| |done].
    destruct (d ++ [a]) as [|y r] eqn:E; [by destruct d|].
    destruct (es !! x) as [child|] eqn:Ex; [|done].
    destruct (update (y :: r) leaf child) as [child'|] eqn:Eu; [|done].
    inversion H; subst. simpl. rewrite lookup_insert_eq.
    by apply IH.
Qed.

(** An update by a safe leaf keeps every entry, and its kind. *)
Lemma update_lookup_kind p leaf n n' q m :
  leaf_safe leaf →
  update p leaf n = Ok n' →
  lookup_path q n = Ok m →
  ∃ m', lookup_path q n' = Ok m' ∧ is_dir_node m' = is_dir_node m.
Proof.
  intros Hsafe. revert n n' q m.
  induction p as [|name rest IH]; intros n n' q m H Hq; [done|].
  destruct n as [c|wr es|]; [done| |done].
  destruct q as [|x q].
  { simpl in Hq. inversion Hq; subst.
    destruct rest as [|y rest].
    - rewrite update_single in H.
      destruct (leaf wr (es !! name)); inversion H; subst. by eexists.
    - rewrite update_cons in H.
      destruct (es !! name); [|done].
      destruct (update (y :: rest) leaf n); inversion H; subst. by eexists. }
  simpl in Hq. destruct (es !! x) as [child|] eqn:Ex; [|done].
  destruct (decide (name = x)) as [->|Hne].
  - destruct rest as [|y rest].
    + rewrite update_single, Ex in H.
      destruct (leaf wr (Some child)) as [new|] eqn:El; [|done].
      inversion H; subst. simpl. rewrite lookup_insert_eq.
      specialize (Hsafe _ _ _ El). simpl in Hsafe.
      destruct child as [c|wr' es'|]; [|done|done].
      destruct Hsafe as [c' ->].
      destruct q; simpl in Hq; [|done].
      inversion Hq; subst. by eexists.
    + rewrite update_cons, Ex in H.
      destruct (update (y :: rest) leaf child) as [child'|] eqn:Eu; [|done].
      inversion H; subst. simpl. rewrite lookup_insert_eq. by eapply IH.
  - assert (∃ new, n' = Dir wr (<[name:=new]> es)) as [new ->].
    { destruct rest as [|y rest].
      - rewrite update_single in H.
        destruct (leaf wr (es !! name)); inversion H; subst. by eexists.
      - rewrite update_cons in H.
        destruct (es !! name); [|done].
        destruct (update (y :: rest) leaf n); inversion H; subst. by eexists. }
    simpl. rewrite lookup_insert_ne, Ex by done. by eexists.
Qed.

(** Writing to a file what it already holds changes nothing. *)
Lemma update_same p c free n :
  p ≠ [] →
  lookup_path p n = Ok (File c) →
  update p (leaf_write c free) n = Ok n.
Proof.
  revert n. induction p as [|name rest IH]; intros n Hp H; [done|].
  destruct n as [c'|wr es|]; [done| |done].
  simpl in H. destruct (es !! name) as [child|] eqn:Ex; [|done].
  destruct rest as [|y rest].
  - destruct child as [c1|wr1 es1|]; simpl in H; inversion H; subst.
    rewrite update_single, Ex. simpl. by rewrite insert_id.
  - rewrite update_cons, Ex, IH by done. by rewrite insert_id.
Qed.

(** ** Names without [..] *)

(** Names with [..], with a leading or a trailing slash, on [fresh_world]. *)
Lemma stat_examples :
  stat "GenerateIcons/../GenerateIcons/master-icon.png" (fs fresh_world)
    = Ok (File master) ∧
  stat "/GenerateIcons/./master-icon.png" (fs fresh_world) = Ok (File master) ∧
  stat "GenerateIcons/master-icon.png/" (fs fresh_world) = Err ENOTDIR ∧
  stat "GenerateIcons/master-icon.png/.." (fs fresh_world) = Err ENOTDIR ∧
  stat "missing/.." (fs fresh_world) = Err ENOENT ∧
  stat "../GenerateIcons/" (fs fresh_world)
    = Ok (Dir true {[ "master-icon.png" := File master ]}).
Proof. split_and!; vm_compute; reflexivity. Qed.

Lemma lookup_path_not_dangling p n : lookup_path p n ≠ Ok Dangling.
Proof.
  revert n. induction p as [|x p IH]; intros n; destruct n as [c|wr es|]; simpl; try done.
  destruct (es !! x); [apply IH|done].
Qed.

(** Once the resolution of a prefix has failed, so has the resolution of
    the whole. *)
Lemma lookup_path_prefix_err a r n e :
  lookup_path a n = Err e → lookup_path (a ++ r) n = Err e.
Proof.
  revert n. induction a as [|x a IH]; intros n H.
  - destruct n; simpl in H; try done. inversion H; subst. by destruct r.
  - destruct n as [c|wr es|]; simpl in *; try done.
    destruct (es !! x); [by apply IH|done].
Qed.

Lemma update_prefix_err a x r leaf n e :
  lookup_path a n = Err e → update (a ++ x :: r) leaf n = Err e.
Proof.
  revert n. induction a as [|y a IH]; intros n H.
  - destruct n; simpl in H; try done; by inversion H.
  - destruct n as [c|wr es|]; simpl in *; try done.
    destruct (a ++ x :: r) as [|z t] eqn:E; [by destruct a|].
    destruct (es !! y) as [child|]; [|done].
    by rewrite (IH child H).
Qed.

(** A regular file is no directory to resolve in. *)
Lemma lookup_path_prefix_file a x r n c :
  lookup_path a n = Ok (File c) → lookup_path (a ++ x :: r) n = Err ENOTDIR.
Proof.
  revert n. induction a as [|y a IH]; intros n H.
  - destruct n; simpl in H; try done.
  - destruct n as [c'|wr es|]; simpl in *; try done.
    destruct (es !! y); [by apply IH|done].
Qed.

Lemma update_prefix_file a x r leaf n c :
  lookup_path a n = Ok (File c) → update (a ++ x :: r) leaf n = Err ENOTDIR.
Proof.
  revert n. induction a as [|y a IH]; intros n H.
  - destruct n; simpl in H; try done.
  - destruct n as [c'|wr es|]; simpl in *; try done.
    destruct (a ++ x :: r) as [|z t] eqn:E; [by destruct a|].
    destruct (es !! y) as [child|]; [|done].
    by rewrite (IH child H).
Qed.

Lemma plain_cons x p : plain (x :: p) = true → x ≠ ".." ∧ plain p = true.
Proof.
  unfold plain. rewrite !bool_decide_eq_true, not_elem_of_cons. by intros [? ?].
Qed.

(** For components without [..], [canon] returns them as they are, or the
    error their resolution runs into. *)
Lemma canon_plain root p acc :
  plain p = true →
  match canon root p acc with
  | Ok q => q = acc ++ p
  | Err e =>
      lookup_path (acc ++ p) root = Err e ∧
      ∀ leaf, update (acc ++ p) leaf root = Err e
  end.
Proof.
  revert acc. induction p as [|x p IH]; intros acc Hp; simpl.
  { by rewrite app_nil_r. }
  apply plain_cons in Hp as [Hx Hp].
  destruct (lookup_path acc root) as [[c|wr es|]|e] eqn:El.
  - split; [by eapply lookup_path_prefix_file|intros; by eapply update_prefix_file].
  - destruct (decide (x = "..")); [done|].
    specialize (IH (acc ++ [x]) Hp). by rewrite <- app_assoc in IH.
  - by destruct (lookup_path_not_dangling acc root).
  - split; [by apply lookup_path_prefix_err|intros; by apply update_prefix_err].
Qed.

Lemma resolve_plain p root :
  plain p = true → resolve p root = lookup_path p root.
Proof.
  intros Hp. unfold resolve. pose proof (canon_plain root p [] Hp) as H.
  destruct (canon root p []) as [q|e]; simpl in H; [by subst|]. by destruct H as [-> _].
Qed.

Lemma os_mkdir_plain p w :
  plain p = true → os_mkdir p w = mkdir_at p w.
Proof.
  intros Hp. unfold os_mkdir. pose proof (canon_plain (fs w) p [] Hp) as H.
  destruct (canon (fs w) p []) as [q|e] eqn:Ec; simpl in H; [by subst|].
  destruct H as [_ H]. unfold mkdir_at. destruct p as [|x p]; [done|]. by rewrite H.
Qed.

Lemma plain_rev p : plain (rev p) = plain p.
Proof.
  unfold plain. apply bool_decide_ext. rewrite !list_elem_of_In.
  by rewrite <- in_rev.
Qed.

Lemma plain_tail x p : plain (x :: p) = true → plain p = true.
Proof. by intros [_ ?]%plain_cons. Qed.

(** ** Directory creation *)

Lemma mkdir_at_returned p w w' :
  mkdir_at p w = (Returned tt, w') →
  update p (leaf_mkdir (inodes w)) (fs w) = Ok (fs w').
Proof.
  unfold mkdir_at. destruct p as [|x p]; [done|].
  destruct (update _ _ _); [|done]. by intros [= <-].
Qed.

Lemma mkdir_at_raised p w e w' :
  mkdir_at p w = (Raised e, w') → w' = w.
Proof.
  unfold mkdir_at. destruct p as [|x p]; [by intros [= <- <-]|].
  destruct (update _ _ _) as [|en] eqn:Eu; [done|]. by intros [= <- <-].
Qed.

(** [os.makedirs] of components without [..]. *)
Lemma makedirs_rev_cons tail rhead w :
  plain (tail :: rhead) = true →
  makedirs_rev (tail :: rhead) w =
    match rhead with
    | [] => mkdir_at [tail] w
    | _ :: _ =>
        if exists_at (rev rhead) (fs w) then mkdir_at (rev (tail :: rhead)) w
        else
          match makedirs_rev rhead w with
          | (Returned _, w2) => mkdir_at (rev (tail :: rhead)) w2
          | (Raised e, w2) =>
              if is_FileExistsError e then mkdir_at (rev (tail :: rhead)) w2
              else (Raised e, w2)
          end
    end.
Proof.
  intros Hp.
  assert (∀ w0, os_mkdir (rev (tail :: rhead)) w0 = mkdir_at (rev (tail :: rhead)) w0)
    as Hmk by (intros; apply os_mkdir_plain; by rewrite plain_rev).
  destruct rhead as [|h r]; [apply (Hmk w)|].
  change (makedirs_rev (tail :: h :: r) w)
    with (bind (bind (path_exists (rev (h :: r)))
                  (λ ex, if negb ex
                         then try_except (makedirs_rev (h :: r)) is_FileExistsError (ret tt)
                         else ret tt))
            (λ _, os_mkdir (rev (tail :: h :: r))) w).
  unfold bind, path_exists, try_except, ret.
  rewrite resolve_plain by (rewrite plain_rev; by eapply plain_tail).
  fold (exists_at (rev (h :: r)) (fs w)).
  destruct (exists_at (rev (h :: r)) (fs w)); [apply Hmk|]. cbn [negb]. cbv beta iota.
  destruct (makedirs_rev (h :: r) w) as [[[]|e] w2]; [apply Hmk|].
  destruct (is_FileExistsError e); [apply Hmk|done].
Qed.

Lemma makedirs_rev_returned rp w w' :
  plain rp = true →
  makedirs_rev rp w = (Returned tt, w') → isdir (rev rp) (fs w') = true.
Proof.
  destruct rp as [|tail rhead].
  { intros _ H. simpl in H. unfold os_mkdir in H. simpl in H.
    destruct (fs w); simpl in H; done. }
  intros Hp H.
  assert (∀ wm, mkdir_at (rev (tail :: rhead)) wm = (Returned tt, w') →
                isdir (rev (tail :: rhead)) (fs w') = true) as Hlast.
  { intros wm Hmk%mkdir_at_returned. unfold isdir.
    assert (lookup_path (rev (tail :: rhead)) (fs w') = Ok (Dir true ∅)) as ->; [|done].
    eapply update_lookup_same; [|done|exact Hmk].
    intros wr [?|] new; simpl; [done|]. unfold create.
    destruct wr, (inodes wm); by intros [= <-]. }
  rewrite makedirs_rev_cons in H by done. destruct rhead as [|h r]; [by eapply Hlast|].
  destruct (exists_at (rev (h :: r)) (fs w)); [by eapply Hlast|].
  destruct (makedirs_rev (h :: r) w) as [[[]|e] w2]; [by eapply Hlast|].
  destruct (is_FileExistsError e); [by eapply Hlast|done].
Qed.

(** ** Properties of the loop *)

(** A [for] loop either runs its body to completion on every element, or
    does so on a prefix and stops at the first element whose body raises. *)
Lemma for_each_cases {A} (body : A → M unit) l w out w' :
  for_each l body w = (out, w') →
  (out = Returned tt ∧ chain body l w w') ∨
  (∃ pre x rest e w1,
      l = pre ++ x :: rest ∧ chain body pre w w1 ∧
      body x w1 = (Raised e, w') ∧ out = Raised e).
Proof.
  revert w. induction l as [|x l IH]; intros w H; simpl in H.
  - inversion H; subst. left. split; [done|constructor].
  - unfold bind in H. destruct (body x w) as [[[]|e] w1] eqn:Eb.
    + destruct (IH _ H) as [[-> Hc]|(pre & y & rest & e & w2 & -> & Hc & Hy & ->)].
      * left. split; [done|]. econstructor; eauto.
      * right. exists (x :: pre), y, rest, e, w2.
        split_and!; try done. econstructor; eauto.
    + inversion H; subst. right. exists [], x, l, e, w.
      split_and!; try done. constructor.
Qed.

Lemma chain_for_each {A} (body : A → M unit) l w w' :
  chain body l w w' → for_each l body w = (Returned tt, w').
Proof.
  induction 1 as [|x l w w1 w2 Hb _ IH]; simpl; [done|].
  unfold bind. by rewrite Hb.
Qed.

Lemma for_each_app_raise {A} (body : A → M unit) pre x rest w w1 e w' :
  chain body pre w w1 → body x w1 = (Raised e, w') →
  for_each (pre ++ x :: rest) body w = (Raised e, w').
Proof.
  induction 1 as [|y l w w1 w2 Hb _ IH]; simpl; intros Hx.
  - unfold bind. by rewrite Hx.
  - unfold bind. rewrite Hb. by apply IH.
Qed.

Lemma sizes_good : Forall (λ s, good_size s = true) sizes.
Proof. apply (bool_decide_unpack _). vm_compute. reflexivity. Qed.

Lemma sizes_names_distinct s s' :
  s ∈ sizes → s' ∈ sizes → icon_name s = icon_name s' → s = s'.
Proof.
  assert (Forall (λ a, Forall (λ b, icon_name a = icon_name b → a = b) sizes) sizes) as H.
  { apply (bool_decide_unpack _). vm_compute. reflexivity. }
  intros Hs Hs'. rewrite Forall_forall in H. specialize (H s Hs).
  rewrite Forall_forall in H. by apply H.
Qed.

(** ** One size *)

#[local] Arguments icon_path : simpl never.
#[local] Arguments icon_file : simpl never.
#[local] Arguments icon_name : simpl never.
#[local] Arguments created_notice : simpl never.
#[local] Arguments not_found_notice : simpl never.

Lemma good_size_spec s :
  good_size s = true →
  (0 <? s)%Z = true ∧ components (icon_file s) = icon_path s ∧
  icon_file s ≠ "" ∧ EXTENSION (lower (splitext_ext (icon_file s))) = Some PNG.
Proof.
  unfold good_size. rewrite !andb_true_iff, !bool_decide_eq_true. tauto.
Qed.

Lemma good_size_plain s :
  good_size s = true →
  plain (icon_path s) = true ∧ dir_required (icon_file s) = false.
Proof.
  unfold good_size. rewrite !andb_true_iff, negb_true_iff. tauto.
Qed.

Lemma Image_resize_pos img s w :
  (0 <? s)%Z = true →
  Image_resize img (s, s) LANCZOS w =
    (Returned (mkImage (s, s) (resized (im_size img) (im_pixels img) (s, s)) None),
     log (EvResize (s, s)) w).
Proof.
  intros Hs. unfold Image_resize, resized. simpl.
  destruct (decide (im_size img = (s, s))); [done|]. by rewrite Hs.
Qed.

(** The body of the loop, for a size of the list: the resize always
    completes, and the step succeeds exactly when the icon file can be
    opened for writing. *)
Lemma process_size_eq img s w :
  good_size s = true →
  process_size img s w =
    match update (icon_path s) (leaf_write (icon_content img s) (inodes w)) (fs w) with
    | Ok root =>
        (Returned tt,
         mkWorld root (charge (icon_path s) (fs w) (inodes w)) (open_files w)
           (trace w ++ steps s))
    | Err e => (Raised (exn_of_errno e), log (EvResize (s, s)) w)
    end.
Proof.
  intros Hg. destruct (good_size_plain s Hg) as [Hpl Hnd].
  apply good_size_spec in Hg as (Hpos & Hp & Hne & Hext).
  unfold process_size, bind. rewrite Image_resize_pos by done.
  unfold Image_save. rewrite Hext. unfold write_file.
  destruct (decide (icon_file s = "")) as [|_]; [done|].
  rewrite Hp, Hnd.
  change (fs (log (EvResize (s, s)) w)) with (fs w).
  change (inodes (log (EvResize (s, s)) w)) with (inodes w).
  cbn [im_size im_pixels]. fold (icon_content img s).
  pose proof (canon_plain (fs w) (icon_path s) [] Hpl) as Hc.
  destruct (canon (fs w) (icon_path s) []) as [q|e]; cbn [app] in Hc.
  - subst q. destruct (update _ _ _); [|done].
    unfold print, log, steps. cbn [fs inodes open_files trace].
    by rewrite <- !app_assoc.
  - destruct Hc as [_ Hc]. by rewrite (Hc (leaf_write (icon_content img s) (inodes w))).
Qed.

Lemma process_size_returned img s w w' :
  good_size s = true →
  process_size img s w = (Returned tt, w') →
  update (icon_path s) (leaf_write (icon_content img s) (inodes w)) (fs w) = Ok (fs w') ∧
  open_files w' = open_files w ∧
  trace w' = trace w ++ steps s.
Proof.
  intros Hg. rewrite process_size_eq by done.
  destruct (update _ _ _); [|done]. by intros [= <-].
Qed.

Lemma process_size_raised img s w e w' :
  good_size s = true →
  process_size img s w = (Raised e, w') →
  (∃ en, update (icon_path s) (leaf_write (icon_content img s) (inodes w)) (fs w) = Err en ∧
         e = exn_of_errno en) ∧
  w' = log (EvResize (s, s)) w.
Proof.
  intros Hg. rewrite process_size_eq by done.
  destruct (update _ _ _) as [|en] eqn:E; [done|].
  intros [= <- <-]. eauto.
Qed.

(** ** A run of sizes *)

Lemma schedule_cons x l : schedule (x :: l) = steps x ++ schedule l.
Proof. reflexivity. Qed.

Section Chain.

Variable img : Image.

Abbreviation good l := (Forall (λ s, good_size s = true) l).

Lemma chain_open_files l w w' :
  good l → chain (process_size img) l w w' → open_files w' = open_files w.
Proof.
  intros Hg Hc. induction Hc as [|x l w w1 w2 Hx _ IH]; [done|].
  inversion Hg; subst.
  apply process_size_returned in Hx as (_ & Ho & _); [|done].
  rewrite IH by done. done.
Qed.

Lemma chain_trace l w w' :
  good l → chain (process_size img) l w w' → trace w' = trace w ++ schedule l.
Proof.
  intros Hg Hc. induction Hc as [|x l w w1 w2 Hx _ IH].
  - by rewrite app_nil_r.
  - inversion Hg; subst.
    apply process_size_returned in Hx as (_ & _ & Ht); [|done].
    by rewrite IH, Ht, schedule_cons, <- app_assoc.
Qed.

Lemma chain_kind l w w' q m :
  good l → chain (process_size img) l w w' →
  lookup_path q (fs w) = Ok m →
  ∃ m', lookup_path q (fs w') = Ok m' ∧ is_dir_node m' = is_dir_node m.
Proof.
  intros Hg Hc. revert m. induction Hc as [|x l w w1 w2 Hx _ IH]; intros m Hq.
  - by exists m.
  - inversion Hg; subst.
    apply process_size_returned in Hx as (Hu & _ & _); [|done].
    destruct (update_lookup_kind _ _ _ _ _ _ (leaf_write_safe _ _) Hu Hq)
      as (m1 & Hq1 & Hk1).
    destruct (IH ltac:(done) _ Hq1) as (m2 & Hq2 & Hk2).
    exists m2. split; [done|]. by rewrite Hk2.
Qed.

(** Names of the output directory that no size of the run maps to keep what
    they hold. *)
Lemma chain_frame l w w' b :
  good l → chain (process_size img) l w w' →
  (∀ s, s ∈ l → icon_name s ≠ b) →
  lookup_path (components output_dir ++ [b]) (fs w') =
  lookup_path (components output_dir ++ [b]) (fs w).
Proof.
  intros Hg Hc. induction Hc as [|x l w w1 w2 Hx _ IH]; intros Hb; [done|].
  inversion Hg; subst.
  apply process_size_returned in Hx as (Hu & _ & _); [|done].
  rewrite IH; [|done|intros s Hs; apply Hb; by right].
  eapply update_lookup_sibling; [|exact Hu]. apply Hb. by left.
Qed.

(** After the run every icon of the run is in place. *)
Lemma chain_files l w w' s :
  good l → chain (process_size img) l w w' →
  (∀ a b, a ∈ l → b ∈ l → icon_name a = icon_name b → a = b) →
  s ∈ l →
  lookup_path (icon_path s) (fs w') = Ok (File (icon_content img s)).
Proof.
  intros Hg Hc. induction Hc as [|x l w w1 w2 Hx Hc IH]; intros Hinj Hs.
  - by apply elem_of_nil in Hs.
  - inversion Hg; subst.
    destruct (decide (s ∈ l)) as [Hin|Hnin].
    + apply IH; [done| |done]. intros a b Ha Hb. apply Hinj; by right.
    + apply elem_of_cons in Hs as [->|Hs]; [|done].
      apply process_size_returned in Hx as (Hu & _ & _); [|done].
      assert (∀ a, a ∈ l → icon_name a ≠ icon_name x) as Hfresh.
      { intros a Ha E. apply Hnin. apply Hinj in E; [by subst|by right|by left]. }
      unfold icon_path. rewrite (chain_frame l w1 w2 _ ltac:(done) Hc Hfresh).
      eapply update_lookup_same; [|done|exact Hu].
      intros wr [[?|? ?|]|] new; simpl; [by intros [= <-]|done|done|].
      unfold create. destruct wr, (inodes w); by intros [= <-].
Qed.

(** A run over icons that are in place already changes neither the files
    nor the free inodes. *)
Lemma chain_again l w :
  good l →
  (∀ s, s ∈ l → lookup_path (icon_path s) (fs w) = Ok (File (icon_content img s))) →
  chain (process_size img) l w
    (mkWorld (fs w) (inodes w) (open_files w) (trace w ++ schedule l)).
Proof.
  intros Hg. revert w. induction Hg as [|x l Hx Hg IH]; intros w Hf.
  - unfold schedule. simpl. rewrite app_nil_r. destruct w. constructor.
  - assert (lookup_path (icon_path x) (fs w) = Ok (File (icon_content img x))) as Hfx
      by (apply Hf; by left).
    econstructor.
    + rewrite process_size_eq by done.
      rewrite update_same; [|by destruct (components output_dir)|done].
      unfold charge, exists_at. rewrite Hfx. reflexivity.
    + specialize (IH (mkWorld (fs w) (inodes w) (open_files w) (trace w ++ steps x))).
      cbn [fs inodes open_files trace] in IH.
      rewrite schedule_cons, app_assoc. apply IH.
      intros s Hs. apply Hf. by right.
Qed.

End Chain.

(** ** The loop, the [with] statement and the handler *)

Lemma for_each_returned {A} (body : A → M unit) l w w' :
  for_each l body w = (Returned tt, w') → chain body l w w'.
Proof.
  intros H. destruct (for_each_cases _ _ _ _ _ H) as [[_ Hc]|Hr]; [done|].
  by destruct Hr as (? & ? & ? & ? & ? & _ & _ & _ & ?).
Qed.

(** What a run of the loop over sizes of the list comes to: a run of
    complete steps, then nothing more, or a resize followed by a save that
    could not open its file. *)
Lemma loop_summary img l w out w' :
  Forall (λ s, good_size s = true) l →
  for_each l (process_size img) w = (out, w') →
  ∃ pre rest w1,
    l = pre ++ rest ∧ chain (process_size img) pre w w1 ∧
    ((out = Returned tt ∧ rest = [] ∧ w' = w1) ∨
     (∃ s rest' en,
         rest = s :: rest' ∧ out = Raised (exn_of_errno en) ∧
         update (icon_path s) (leaf_write (icon_content img s) (inodes w1)) (fs w1)
           = Err en ∧
         w' = log (EvResize (s, s)) w1)).
Proof.
  intros Hg H.
  destruct (for_each_cases _ _ _ _ _ H)
    as [[-> Hc]|(pre & s & rest & e & w1 & -> & Hc & Hs & ->)].
  - exists l, [], w'. rewrite app_nil_r. split_and!; try done. by left.
  - exists pre, (s :: rest), w1. split_and!; try done. right.
    apply process_size_raised in Hs as [(en & Hu & ->) ->].
    + by exists s, rest, en.
    + rewrite Forall_app, Forall_cons in Hg. tauto.
Qed.

Lemma stat_not_dangling name root : stat name root ≠ Ok Dangling.
Proof.
  unfold stat, resolve. destruct (decide (name = "")); [done|].
  destruct (canon root (components name) []) as [q|e]; [|done].
  pose proof (lookup_path_not_dangling q root) as H.
  destruct (lookup_path q root) as [[c| |]|]; try done.
  by destruct (dir_required name).
Qed.

Lemma Image_open_returned src w img w0 :
  Image_open src w = (Returned img, w0) →
  ∃ fmt size px,
    stat src (fs w) = Ok (File (Encoded fmt size px)) ∧
    img = mkImage size px (Some src) ∧
    w0 = mkWorld (fs w) (inodes w) (src :: open_files w) (trace w ++ [EvOpen src]).
Proof.
  unfold Image_open. destruct (stat src (fs w)) as [[[fmt size px|d]|wr es|]|en]; try done.
  intros [= <- <-]. by exists fmt, size, px.
Qed.

Lemma Image_open_raised src w e w0 :
  Image_open src w = (Raised e, w0) →
  w0 = w ∧ (e = FileNotFoundError ↔ stat src (fs w) = Err ENOENT).
Proof.
  unfold Image_open. pose proof (stat_not_dangling src (fs w)) as Hd.
  destruct (stat src (fs w)) as [[[fmt size px|d]|wr es|]|en]; try done;
    intros [= <- <-]; (split; [done|]); try done.
  by destruct en.
Qed.

Lemma generate_icons_try_opened src w img w0 out w1 :
  Image_open src w = (Returned img, w0) →
  for_each sizes (process_size img) w0 = (out, w1) →
  generate_icons_try src w = (out, closed src w1).
Proof.
  intros Ho Hl. unfold generate_icons_try, with_. rewrite Ho, Hl.
  apply Image_open_returned in Ho as (? & ? & ? & _ & -> & _).
  by destruct out.
Qed.

Lemma generate_icons_try_not_opened src w e w0 :
  Image_open src w = (Raised e, w0) →
  generate_icons_try src w = (Raised e, w).
Proof.
  intros Ho. unfold generate_icons_try, with_. rewrite Ho.
  by apply Image_open_raised in Ho as [-> _].
Qed.

Lemma generate_icons_eq src w :
  generate_icons src w =
    match generate_icons_try src w with
    | (Returned a, w1) => (Returned a, w1)
    | (Raised e, w1) =>
        if is_FileNotFoundError e
        then (Returned tt, log (EvPrint (not_found_notice src)) w1)
        else (Raised e, w1)
    end.
Proof. reflexivity. Qed.

Lemma stat_icon_file s root :
  good_size s = true → stat (icon_file s) root = lookup_path (icon_path s) root.
Proof.
  intros Hg. destruct (good_size_plain s Hg) as [Hpl Hnd].
  apply good_size_spec in Hg as (_ & Hp & Hne & _). unfold stat.
  destruct (decide (icon_file s = "")); [done|].
  rewrite Hp, Hnd, (resolve_plain _ _ Hpl).
  by destruct (lookup_path (icon_path s) root) as [[| |]|].
Qed.

Lemma good_in_sizes s : s ∈ sizes → good_size s = true.
Proof. intros Hs. pose proof sizes_good as H. rewrite Forall_forall in H. auto. Qed.

Lemma good_sublist pre rest :
  sizes = pre ++ rest → Forall (λ s, good_size s = true) pre.
Proof.
  intros E. pose proof sizes_good as H. rewrite E, Forall_app in H. tauto.
Qed.

Lemma in_sizes_of_pre pre rest s : sizes = pre ++ rest → s ∈ pre → s ∈ sizes.
Proof. intros -> Hs. apply elem_of_app. by left. Qed.

Lemma distinct_sublist pre rest a b :
  sizes = pre ++ rest →
  a ∈ pre → b ∈ pre → icon_name a = icon_name b → a = b.
Proof.
  intros E Ha Hb. apply sizes_names_distinct; by eapply in_sizes_of_pre.
Qed.

(** A completed [try] block: the source decoded, the loop ran over all
    sizes, and every icon is in place. *)
Lemma generate_icons_try_returned src w w' :
  generate_icons_try src w = (Returned tt, w') →
  ∃ fmt from px w0 w1,
    stat src (fs w) = Ok (File (Encoded fmt from px)) ∧
    Image_open src w = (Returned (mkImage from px (Some src)), w0) ∧
    chain (process_size (mkImage from px (Some src))) sizes w0 w1 ∧
    w' = closed src w1 ∧
    ∀ s, s ∈ sizes →
      stat (icon_file s) (fs w') = Ok (File (Encoded PNG (s, s) (resized from px (s, s)))).
Proof.
  intros Htry.
  destruct (Image_open src w) as [[img|e] w0] eqn:Ho;
    [|by rewrite (generate_icons_try_not_opened _ _ _ _ Ho) in Htry].
  destruct (for_each sizes (process_size img) w0) as [out w1] eqn:Hl.
  rewrite (generate_icons_try_opened _ _ _ _ _ _ Ho Hl) in Htry.
  injection Htry as -> <-.
  apply for_each_returned in Hl.
  destruct (Image_open_returned _ _ _ _ Ho) as (fmt & from & px & Hst & -> & _).
  exists fmt, from, px, w0, w1. split_and!; try done. intros s Hs.
  rewrite stat_icon_file by by apply good_in_sizes.
  apply (chain_files _ sizes w0 w1 s sizes_good Hl); [|done].
  intros a b. apply sizes_names_distinct.
Qed.

Lemma generate_icons_opened src w img w0 :
  Image_open src w = (Returned img, w0) →
  ∃ pre rest w1,
    sizes = pre ++ rest ∧ chain (process_size img) pre w0 w1 ∧
    ((rest = [] ∧ generate_icons src w = finish src (Returned tt) w1) ∨
     (∃ s rest' en,
         rest = s :: rest' ∧
         update (icon_path s) (leaf_write (icon_content img s) (inodes w1)) (fs w1)
           = Err en ∧
         generate_icons src w =
           finish src (Raised (exn_of_errno en)) (log (EvResize (s, s)) w1))).
Proof.
  intros Ho.
  destruct (for_each sizes (process_size img) w0) as [out w1'] eqn:Hl.
  rewrite generate_icons_eq, (generate_icons_try_opened _ _ _ _ _ _ Ho Hl).
  destruct (loop_summary _ _ _ _ _ sizes_good Hl)
    as (pre & rest & w1 & E & Hc & [(-> & -> & ->)|(s & rest' & en & -> & -> & Hu & ->)]).
  - exists pre, [], w1. split_and!; try done. by left.
  - exists pre, (s :: rest'), w1. split_and!; try done.
    right. by exists s, rest', en.
Qed.

Lemma generate_icons_not_opened src w e w0 :
  Image_open src w = (Raised e, w0) →
  generate_icons src w =
    if is_FileNotFoundError e
    then (Returned tt, log (EvPrint (not_found_notice src)) w)
    else (Raised e, w).
Proof.
  intros Ho. by rewrite generate_icons_eq, (generate_icons_try_not_opened _ _ _ _ Ho).
Qed.

Lemma finish_fs src out w1 : fs (finish src out w1).2 = fs w1.
Proof. destruct out as [a|e]; simpl; [done|]. by destruct (is_FileNotFoundError e). Qed.

Lemma finish_open_files src out w1 :
  open_files (finish src out w1).2 = remove_first src (open_files w1).
Proof. destruct out as [a|e]; simpl; [done|]. by destruct (is_FileNotFoundError e). Qed.

Lemma finish_trace src out w1 :
  ∃ diag, trace (finish src out w1).2 = trace w1 ++ EvClose src :: diag ∧
          (diag = [] ∨ diag = [EvPrint (not_found_notice src)]).
Proof.
  destruct out as [a|e]; simpl; [exists []; eauto|].
  destruct (is_FileNotFoundError e); simpl.
  - exists [EvPrint (not_found_notice src)]. rewrite <- app_assoc. eauto.
  - exists []. eauto.
Qed.

Lemma remove_first_head f l : remove_first f (f :: l) = l.
Proof. simpl. by destruct (decide (f = f)). Qed.

Lemma saved_app a b : saved (a ++ b) = saved a ++ saved b.
Proof. apply omap_app. Qed.

Lemma saved_schedule l : saved (schedule l) = icon_file <$> l.
Proof.
  induction l as [|x l IH]; [done|].
  rewrite schedule_cons, saved_app, IH. done.
Qed.

(** ** Startup *)

Lemma stat_output_dir root :
  stat output_dir root = lookup_path (components output_dir) root.
Proof.
  unfold stat. destruct (decide (output_dir = "")); [done|].
  assert (dir_required output_dir = false) as -> by (vm_compute; reflexivity).
  rewrite resolve_plain by (vm_compute; reflexivity).
  by destruct (lookup_path (components output_dir) root) as [[| |]|].
Qed.

Lemma startup_eq w :
  startup w =
    if exists_at (components output_dir) (fs w) then (Returned tt, w)
    else makedirs_rev (rev (components output_dir)) w.
Proof.
  unfold startup, bind, os_path_exists, os_makedirs, exists_at.
  rewrite stat_output_dir.
  destruct (lookup_path (components output_dir) (fs w)); simpl; [done|].
  by destruct (decide (output_dir = "")).
Qed.

Lemma isdir_exists p root : isdir p root = true → exists_at p root = true.
Proof. unfold isdir, exists_at. by destruct (lookup_path p root). Qed.

Lemma startup_returned_exists w w1 :
  startup w = (Returned tt, w1) → exists_at (components output_dir) (fs w1) = true.
Proof.
  rewrite startup_eq.
  destruct (exists_at (components output_dir) (fs w)) eqn:Ex.
  - by intros [= <-].
  - intros H. apply makedirs_rev_returned in H; [|by vm_compute].
    rewrite rev_involutive in H. by apply isdir_exists.
Qed.

Lemma startup_returned_isdir w w1 :
  startup w = (Returned tt, w1) →
  (∀ c, stat output_dir (fs w) ≠ Ok (File c)) →
  isdir (components output_dir) (fs w1) = true.
Proof.
  rewrite startup_eq. intros H Hnf.
  destruct (exists_at (components output_dir) (fs w)) eqn:Ex.
  - injection H as <-. unfold exists_at, isdir in *.
    specialize (Hnf). rewrite stat_output_dir in Hnf.
    pose proof (lookup_path_not_dangling (components output_dir) (fs w)) as Hd.
    destruct (lookup_path (components output_dir) (fs w)) as [[c|wr es|]|]; try done.
    by destruct (Hnf c).
  - apply makedirs_rev_returned in H; [|by vm_compute]. by rewrite rev_involutive in H.
Qed.

(** [generate_icons] keeps every entry of the file system, and its kind. *)
Lemma generate_icons_kind src w out w' q m :
  generate_icons src w = (out, w') →
  lookup_path q (fs w) = Ok m →
  ∃ m', lookup_path q (fs w') = Ok m' ∧ is_dir_node m' = is_dir_node m.
Proof.
  intros Hrun Hq.
  destruct (Image_open src w) as [[img|e] w0] eqn:Ho.
  - destruct (Image_open_returned _ _ _ _ Ho) as (_ & _ & _ & _ & _ & Hw0).
    destruct (generate_icons_opened _ _ _ _ Ho) as (pre & rest & w1 & E & Hc & Hcase).
    assert (fs w' = fs w1) as ->.
    { destruct Hcase as [[_ Hfin]|(s & rest' & en & _ & _ & Hfin)];
        rewrite Hrun in Hfin; change w' with ((out, w').2);
        by rewrite Hfin, finish_fs. }
    apply (chain_kind _ _ _ _ _ _ (good_sublist _ _ E) Hc). by rewrite Hw0.
  - rewrite (generate_icons_not_opened _ _ _ _ Ho) in Hrun.
    destruct (is_FileNotFoundError e); injection Hrun as <- <-; by exists m.
Qed.




Lemma components_output_dir : components output_dir = ["public"; "icons"].
Proof. reflexivity. Qed.

(** ** The claims *)

(** C1: when the [try] block of [generate_icons] runs to completion -- a
    successful run, which needs a source that decodes -- then for every size
    [s] of the list the file [icon-<s>x<s>.png] of the output directory holds
    a PNG image of [s] by [s] pixels.  Its pixel data is the resampling of
    the whole source image to that size, whatever the size of the source:
    nothing is cropped or padded and the aspect ratio is not kept. *)
Theorem icons_have_requested_size (src : string) (w w' : World) :
  generate_icons_try src w = (Returned tt, w') →
  generate_icons src w = (Returned tt, w') ∧
  ∃ fmt from px,
    stat src (fs w) = Ok (File (Encoded fmt from px)) ∧
    ∀ s, s ∈ sizes →
      stat (output_dir +:+ "/icon-" +:+ pretty s +:+ "x" +:+ pretty s +:+ ".png") (fs w')
      = Ok (File (Encoded PNG (s, s) (resized from px (s, s)))).
Proof.
  intros Htry. split; [by rewrite generate_icons_eq, Htry|].
  destruct (generate_icons_try_returned _ _ _ Htry)
    as (fmt & from & px & _ & _ & Hst & _ & _ & _ & Hfiles).
  by exists fmt, from, px.
Qed.

(** C5: a second run against the same source image, after a successful
    first run, succeeds as well: it saves every icon again, over the files of
    the first run, and leaves the file system exactly as the first run left
    it.  The resampling is a function of the source image and the size, so
    the files written twice hold the same data. *)
Theorem second_run_changes_nothing (src : string) (w w1 : World) :
  generate_icons_try src w = (Returned tt, w1) →
  stat src (fs w1) = stat src (fs w) →
  ∃ w2,
    generate_icons src w1 = (Returned tt, w2) ∧
    trace w2 = trace w1 ++ [EvOpen src] ++ schedule sizes ++ [EvClose src] ∧
    fs w2 = fs w1 ∧ inodes w2 = inodes w1.
Proof.
  intros Htry Hsame.
  destruct (generate_icons_try_returned _ _ _ Htry)
    as (fmt & from & px & _ & _ & Hst & _ & _ & _ & Hfiles).
  set (img := mkImage from px (Some src)).
  set (w1o := mkWorld (fs w1) (inodes w1) (src :: open_files w1) (trace w1 ++ [EvOpen src])).
  assert (Image_open src w1 = (Returned img, w1o)) as Ho.
  { unfold Image_open. by rewrite Hsame, Hst. }
  assert (chain (process_size img) sizes w1o
            (mkWorld (fs w1o) (inodes w1o) (open_files w1o) (trace w1o ++ schedule sizes)))
    as Hc.
  { apply chain_again; [apply sizes_good|]. intros s Hs.
    rewrite <- stat_icon_file by by apply good_in_sizes. by apply Hfiles. }
  apply chain_for_each in Hc.
  eexists. split.
  { rewrite generate_icons_eq, (generate_icons_try_opened _ _ _ _ _ _ Ho Hc). done. }
  unfold closed, w1o. cbn [fs inodes open_files trace].
  split_and!; try done. by rewrite <- !app_assoc.
Qed.

(** C6: whatever way [generate_icons] ends -- the loop completed, the
    source could not be opened, or an exception was raised from the
    processing of some size -- the process holds the same open files after
    the call as before it; and a run that opened the source closed it. *)
Theorem source_handle_released (src : string) (w : World) (out : outcome unit) (w' : World) :
  generate_icons src w = (out, w') →
  open_files w' = open_files w ∧
  ∃ evs, trace w' = trace w ++ evs ∧ (EvOpen src ∈ evs → EvClose src ∈ evs).
Proof.
  intros Hrun.
  destruct (Image_open src w) as [[img|e] w0] eqn:Ho.
  - destruct (Image_open_returned _ _ _ _ Ho) as (_ & _ & _ & _ & _ & Hw0).
    destruct (generate_icons_opened _ _ _ _ Ho)
      as (pre & rest & w1 & E & Hc & Hcase).
    pose proof (chain_open_files _ _ _ _ (good_sublist _ _ E) Hc) as Hof.
    pose proof (chain_trace _ _ _ _ (good_sublist _ _ E) Hc) as Htr.
    assert (∃ o wl evl, generate_icons src w = finish src o wl ∧
              open_files wl = open_files w1 ∧ trace wl = trace w1 ++ evl)
      as (o & wl & evl & Hfin & Hofl & Htrl).
    { destruct Hcase as [[_ Hfin]|(s & rest' & en & _ & _ & Hfin)].
      - exists (Returned tt), w1, []. by rewrite app_nil_r.
      - by exists (Raised (exn_of_errno en)), (log (EvResize (s, s)) w1), [EvResize (s, s)]. }
    rewrite Hrun in Hfin.
    pose proof (finish_open_files src o wl) as Hfo.
    destruct (finish_trace src o wl) as (diag & Hft & _).
    rewrite <- Hfin in Hfo, Hft. simpl in Hfo, Hft.
    split.
    + rewrite Hfo, Hofl, Hof, Hw0. apply remove_first_head.
    + exists ([EvOpen src] ++ schedule pre ++ evl ++ EvClose src :: diag). split.
      * rewrite Hft, Htrl, Htr, Hw0. simpl. by rewrite <- !app_assoc.
      * intros _. rewrite !elem_of_app. do 3 right. apply list_elem_of_here.
  - rewrite (generate_icons_not_opened _ _ _ _ Ho) in Hrun.
    destruct (is_FileNotFoundError e); injection Hrun as <- <-.
    + split; [done|]. exists [EvPrint (not_found_notice src)]. split; [done|].
      intros H. apply list_elem_of_singleton in H. done.
    + split; [done|]. exists []. split; [by rewrite app_nil_r|].
      intros H. by apply elem_of_nil in H.
Qed.

(** C7: whatever the format [fmt] of the source image, the files a run
    of [generate_icons] saved are the icons of the sizes it went through, in
    the order of the list -- all eight when the [try] block completes -- and
    every one of them holds a PNG encoding when the run ends, be it by
    completion or by an exception. *)
Theorem outputs_are_png (src : string) (w : World) (fmt : format) (from : Z * Z)
    (px : pixels) (out : outcome unit) (w' : World) :
  stat src (fs w) = Ok (File (Encoded fmt from px)) →
  generate_icons src w = (out, w') →
  ∃ evs pre rest,
    trace w' = trace w ++ evs ∧ sizes = pre ++ rest ∧
    saved evs = icon_file <$> pre ∧
    (generate_icons_try src w = (Returned tt, w') → pre = sizes) ∧
    ∀ f, f ∈ saved evs →
      ∃ c, stat f (fs w') = Ok (File c) ∧ format_of c = Some PNG.
Proof.
  intros Hst Hrun.
  set (img := mkImage from px (Some src)).
  set (w0 := mkWorld (fs w) (inodes w) (src :: open_files w) (trace w ++ [EvOpen src])).
  assert (Image_open src w = (Returned img, w0)) as Ho
    by (unfold Image_open; by rewrite Hst).
  destruct (for_each sizes (process_size img) w0) as [lo wl0] eqn:Hl.
  pose proof (generate_icons_try_opened _ _ _ _ _ _ Ho Hl) as Htry.
  destruct (loop_summary _ _ _ _ _ sizes_good Hl)
    as (pre & rest & w1 & E & Hc & Hcase).
  pose proof (chain_trace _ _ _ _ (good_sublist _ _ E) Hc) as Htr.
  assert (∃ o wl evl, generate_icons src w = finish src o wl ∧
            fs wl = fs w1 ∧ trace wl = trace w1 ++ evl ∧ saved evl = [] ∧
            (generate_icons_try src w = (Returned tt, w') → rest = []))
    as (o & wl & evl & Hfin & Hfs & Htrl & Hsv & Hall).
  { rewrite generate_icons_eq, Htry.
    destruct Hcase as [(-> & -> & ->)|(s & rest' & en & -> & -> & _ & ->)].
    - exists (Returned tt), w1, []. by rewrite app_nil_r.
    - exists (Raised (exn_of_errno en)), (log (EvResize (s, s)) w1), [EvResize (s, s)].
      split_and!; done. }
  rewrite Hrun in Hfin.
  pose proof (finish_fs src o wl) as Hffs.
  destruct (finish_trace src o wl) as (diag & Hft & Hdiag).
  rewrite <- Hfin in Hffs, Hft. simpl in Hffs, Hft.
  exists ([EvOpen src] ++ schedule pre ++ evl ++ EvClose src :: diag), pre, rest.
  assert (saved ([EvOpen src] ++ schedule pre ++ evl ++ EvClose src :: diag)
          = icon_file <$> pre) as Hsaved.
  { rewrite !saved_app, saved_schedule, Hsv.
    assert (saved (EvClose src :: diag) = []) as -> by by destruct Hdiag as [->| ->].
    simpl. by rewrite app_nil_r. }
  split_and!; try done.
  { rewrite Hft, Htrl, Htr. unfold w0. simpl. by rewrite <- !app_assoc. }
  { intros Hdone. rewrite (Hall Hdone), app_nil_r in E. done. }
  intros f. rewrite Hsaved. intros (s & -> & Hs)%list_elem_of_fmap.
  exists (icon_content img s). split; [|done].
  rewrite stat_icon_file by (apply good_in_sizes; by eapply in_sizes_of_pre).
  rewrite Hffs, Hfs.
  apply (chain_files _ pre w0 w1 s (good_sublist _ _ E) Hc); [|done].
  intros a b. by apply (distinct_sublist pre rest).
Qed.

(** C8: in a run that opened the source, the operations on the sizes come
    in the order of the list and one size at a time: the trace is, for a
    run of sizes that starts the list, the resize, the save and the notice
    of the first of them, then those of the next, and so on, so that a notice
    follows the save it reports and a resize follows the notice of the
    previous size.  A run that completes goes through the whole list; one
    that stops does so after the resize of the next size. *)
Theorem sizes_processed_in_order (src : string) (w : World) (img : Image) (w0 : World)
    (out : outcome unit) (w' : World) :
  Image_open src w = (Returned img, w0) →
  generate_icons src w = (out, w') →
  ∃ pre rest,
    sizes = pre ++ rest ∧
    ((rest = [] ∧ out = Returned tt ∧
      trace w' = trace w ++ [EvOpen src] ++ schedule sizes ++ [EvClose src]) ∨
     (∃ s rest' diag,
        rest = s :: rest' ∧
        trace w' = trace w ++ [EvOpen src] ++ schedule pre ++
                   [EvResize (s, s); EvClose src] ++ diag ∧
        (diag = [] ∨ diag = [EvPrint (not_found_notice src)]))).
Proof.
  intros Ho Hrun.
  destruct (Image_open_returned _ _ _ _ Ho) as (_ & _ & _ & _ & _ & Hw0).
  destruct (generate_icons_opened _ _ _ _ Ho) as (pre & rest & w1 & E & Hc & Hcase).
  pose proof (chain_trace _ _ _ _ (good_sublist _ _ E) Hc) as Htr.
  exists pre, rest. split; [done|].
  destruct Hcase as [[-> Hfin]|(s & rest' & en & -> & _ & Hfin)];
    rewrite Hrun in Hfin.
  - left. rewrite app_nil_r in E. subst pre.
    injection Hfin as -> ->. split_and!; try done.
    unfold closed. simpl. rewrite Htr, Hw0. simpl. by rewrite <- !app_assoc.
  - right.
    destruct (finish_trace src (Raised (exn_of_errno en)) (log (EvResize (s, s)) w1))
      as (diag & Hft & Hdiag).
    rewrite <- Hfin in Hft. simpl in Hft.
    exists s, rest', diag. split_and!; try done.
    rewrite Hft, Htr, Hw0. simpl. by rewrite <- !app_assoc.
Qed.

(** C9: when the processing of a size of the list raises, after the sizes
    before it were processed, [generate_icons] ends with the file system as
    the last completed save left it: nothing is removed or restored, and
    the icons of the sizes before the failing one are in place. *)
Theorem earlier_icons_survive_fault (src : string) (w : World) (img : Image) (w0 : World)
    (pre : list Z) (s : Z) (rest : list Z) (w1 : World) (e : exn) (w2 : World) :
  Image_open src w = (Returned img, w0) →
  sizes = pre ++ s :: rest →
  for_each pre (process_size img) w0 = (Returned tt, w1) →
  process_size img s w1 = (Raised e, w2) →
  ∃ out w',
    generate_icons src w = (out, w') ∧
    fs w' = fs w1 ∧
    ∀ s', s' ∈ pre →
      stat (icon_file s') (fs w') = Ok (File (icon_content img s')).
Proof.
  intros Ho E Hdone Hs.
  apply for_each_returned in Hdone.
  pose proof (for_each_app_raise _ _ _ rest _ _ _ _ Hdone Hs) as Hl.
  rewrite <- E in Hl.
  pose proof (generate_icons_try_opened _ _ _ _ _ _ Ho Hl) as Htry.
  assert (good_size s = true) as Hg
    by (apply good_in_sizes; rewrite E, elem_of_app, elem_of_cons; auto).
  apply process_size_raised in Hs as [_ ->]; [|done].
  exists (finish src (Raised e) (log (EvResize (s, s)) w1)).1,
         (finish src (Raised e) (log (EvResize (s, s)) w1)).2.
  split_and!.
  - rewrite generate_icons_eq, Htry. simpl. by destruct (is_FileNotFoundError e).
  - by rewrite finish_fs.
  - intros s' Hs'. rewrite finish_fs. simpl.
    rewrite stat_icon_file by (apply good_in_sizes; by eapply in_sizes_of_pre).
    apply (chain_files _ pre w0 w1 s' (good_sublist _ _ E) Hdone); [|done].
    intros a b. by apply (distinct_sublist pre (s :: rest)).
Qed.


(** C4, amended: in a run of the program whose startup step does not
    fault, and where the output path is not taken by a regular file, the
    output directory exists as soon as the startup step is over, before
    [generate_icons] is called, and it still exists when the run ends,
    whether the source image was found or not and whether the generation
    completed or not. *)
Theorem output_directory_exists_after_run (w : World) (out : outcome unit) (w' : World) :
  main w = (out, w') →
  (∀ c, stat output_dir (fs w) ≠ Ok (File c)) →
  (∀ e w1, startup w ≠ (Raised e, w1)) →
  ∃ w1,
    startup w = (Returned tt, w1) ∧
    isdir (components output_dir) (fs w1) = true ∧
    generate_icons source_file w1 = (out, w') ∧
    isdir (components output_dir) (fs w') = true.
Proof.
  intros Hmain Hnf Hok. unfold main, bind in Hmain.
  destruct (startup w) as [[[]|e] w1] eqn:Hs; [|by destruct (Hok e w1)].
  exists w1. pose proof (startup_returned_isdir _ _ Hs Hnf) as Hd.
  split_and!; try done.
  unfold isdir in *.
  destruct (lookup_path (components output_dir) (fs w1)) as [m|] eqn:Em; [|done].
  destruct (generate_icons_kind _ _ _ _ _ _ Hmain Em) as (m' & -> & ->). done.
Qed.



(** ** Further properties *)

(** *** The file system under writes and directory creation *)

(** An update by a safe leaf keeps the content of every regular file other
    than the one it is aimed at. *)
Lemma update_keeps_files p leaf n n' q c :
  leaf_safe leaf →
  update p leaf n = Ok n' → q ≠ p →
  lookup_path q n = Ok (File c) → lookup_path q n' = Ok (File c).
Proof.
  intros Hsafe. revert n n' q.
  induction p as [|name rest IH]; intros n n' q H Hne Hq; [done|].
  destruct n as [c0|wr es|]; [done| |done].
  destruct q as [|x q]; [done|].
  simpl in Hq. destruct (es !! x) as [child|] eqn:Ex; [|done].
  destruct (decide (name = x)) as [->|Hnx].
  - destruct rest as [|y rest].
    + rewrite update_single, Ex in H.
      destruct (leaf wr (Some child)) as [new|] eqn:El; [|done].
      specialize (Hsafe _ _ _ El). simpl in Hsafe.
      destruct child as [c1|wr' es'|]; [|done|done].
      destruct q; [done|]. done.
    + rewrite update_cons, Ex in H.
      destruct (update (y :: rest) leaf child) as [child'|] eqn:Eu; [|done].
      inversion H; subst. simpl. rewrite lookup_insert_eq.
      apply (IH child); [done| |done]. congruence.
  - assert (∃ new, n' = Dir wr (<[name:=new]> es)) as [new ->].
    { destruct rest as [|y rest].
      - rewrite update_single in H.
        destruct (leaf wr (es !! name)); inversion H; subst. by eexists.
      - rewrite update_cons in H.
        destruct (es !! name); [|done].
        destruct (update (y :: rest) leaf n); inversion H; subst. by eexists. }
    simpl. by rewrite lookup_insert_ne, Ex.
Qed.

(** [mkdir] succeeds on free names only. *)
Lemma update_mkdir_fresh p free n n' :
  update p (leaf_mkdir free) n = Ok n' → exists_at p n = false.
Proof.
  unfold exists_at. revert n n'.
  induction p as [|name rest IH]; intros n n' H; [done|].
  destruct n as [c|wr es|]; [done| |done].
  destruct rest as [|y rest].
  - rewrite update_single in H. simpl.
    by destruct (es !! name) as [child|].
  - rewrite update_cons in H.
    change (lookup_path (name :: y :: rest) (Dir wr es))
      with (match es !! name with
            | None => Err ENOENT
            | Some ch => lookup_path (y :: rest) ch
            end).
    destruct (es !! name) as [child|]; [|done].
    destruct (update (y :: rest) (leaf_mkdir free) child) as [child'|] eqn:Eu; [|done].
    by eapply IH.
Qed.

(** What is resolved through another first component is out of reach of an
    update. *)
Lemma update_lookup_other_root x r leaf n n' y q :
  update (x :: r) leaf n = Ok n' → y ≠ x →
  lookup_path (y :: q) n' = lookup_path (y :: q) n.
Proof.
  intros H Hne. destruct n as [c|wr es|]; [done| |done].
  assert (∃ new, n' = Dir wr (<[x:=new]> es)) as [new ->].
  { destruct r as [|z r].
    - rewrite update_single in H.
      destruct (leaf wr (es !! x)); inversion H; subst. by eexists.
    - rewrite update_cons in H.
      destruct (es !! x); [|done].
      destruct (update (z :: r) leaf n); inversion H; subst. by eexists. }
  simpl. by rewrite lookup_insert_ne.
Qed.

Lemma leaf_mkdir_safe free : leaf_safe (leaf_mkdir free).
Proof. intros wr [[?|? ?|]|] new H; simpl in *; done. Qed.

(** *** What a run leaves alone *)

Lemma chain_keeps_files img l w w' q c :
  Forall (λ s, good_size s = true) l →
  chain (process_size img) l w w' →
  (∀ s, s ∈ l → q ≠ icon_path s) →
  lookup_path q (fs w) = Ok (File c) → lookup_path q (fs w') = Ok (File c).
Proof.
  intros Hg Hc. induction Hc as [|x l w w1 w2 Hx _ IH]; intros Hq Hf; [done|].
  inversion Hg; subst.
  apply process_size_returned in Hx as (Hu & _ & _); [|done].
  apply IH; [done|intros s Hs; apply Hq; by right|].
  eapply update_keeps_files; [apply leaf_write_safe|exact Hu| |done].
  apply Hq. by left.
Qed.

Lemma generate_icons_keeps_files src w out w' q c :
  generate_icons src w = (out, w') →
  lookup_path q (fs w) = Ok (File c) →
  (∀ s, s ∈ sizes → q ≠ components (icon_file s)) →
  lookup_path q (fs w') = Ok (File c).
Proof.
  intros Hrun Hf Hq.
  destruct (Image_open src w) as [[img|e] w0] eqn:Ho.
  - destruct (Image_open_returned _ _ _ _ Ho) as (_ & _ & _ & _ & _ & Hw0).
    destruct (generate_icons_opened _ _ _ _ Ho) as (pre & rest & w1 & E & Hc & Hcase).
    assert (fs w' = fs w1) as ->.
    { destruct Hcase as [[_ Hfin]|(s & rest' & en & _ & _ & Hfin)];
        rewrite Hrun in Hfin; change w' with ((out, w').2);
        by rewrite Hfin, finish_fs. }
    apply (chain_keeps_files img pre w0 w1 q c (good_sublist _ _ E) Hc);
      [|by rewrite Hw0].
    intros s Hs. pose proof (in_sizes_of_pre _ _ _ E Hs) as Hin.
    destruct (good_size_spec s (good_in_sizes s Hin)) as (_ & <- & _). by apply Hq.
  - rewrite (generate_icons_not_opened _ _ _ _ Ho) in Hrun.
    by destruct (is_FileNotFoundError e); injection Hrun as <- <-.
Qed.

(** X1: whatever its outcome, a call of [generate_icons] leaves every
    regular file other than the eight icon files with the content it had;
    the source image is one of them unless it is an icon file itself. *)
Theorem other_files_untouched (src : string) (w : World) (out : outcome unit)
    (w' : World) (q : path) (c : content) :
  generate_icons src w = (out, w') →
  lookup_path q (fs w) = Ok (File c) →
  (∀ s, s ∈ sizes → q ≠ components (icon_file s)) →
  lookup_path q (fs w') = Ok (File c).
Proof. apply generate_icons_keeps_files. Qed.

(** *** The startup step *)

(** X4: the startup step is idempotent: once it has returned, running it
    again returns and changes nothing. *)
Theorem startup_idempotent (w w1 : World) :
  startup w = (Returned tt, w1) → startup w1 = (Returned tt, w1).
Proof.
  intros H%startup_returned_exists. by rewrite startup_eq, H.
Qed.

Lemma mkdir_at_keeps_files p w out w' q c :
  mkdir_at p w = (out, w') →
  lookup_path q (fs w) = Ok (File c) → lookup_path q (fs w') = Ok (File c).
Proof.
  intros H Hq. destruct out as [[]|e].
  - apply mkdir_at_returned in H.
    eapply update_keeps_files; [apply leaf_mkdir_safe|exact H| |done].
    intros ->. apply update_mkdir_fresh in H. unfold exists_at in H. by rewrite Hq in H.
  - by apply mkdir_at_raised in H as ->.
Qed.

Lemma makedirs_rev_keeps_files rp w out w' q c :
  plain rp = true →
  makedirs_rev rp w = (out, w') →
  lookup_path q (fs w) = Ok (File c) → lookup_path q (fs w') = Ok (File c).
Proof.
  revert w out w'. induction rp as [|tail rhead IH]; intros w out w' Hp H Hq.
  { simpl in H. by injection H as _ <-. }
  rewrite makedirs_rev_cons in H by done. apply plain_tail in Hp.
  destruct rhead as [|h r].
  { by eapply mkdir_at_keeps_files. }
  destruct (exists_at (rev (h :: r)) (fs w)); [by eapply mkdir_at_keeps_files|].
  destruct (makedirs_rev (h :: r) w) as [[[]|e] w2] eqn:Er.
  - eapply mkdir_at_keeps_files; [exact H|]. by eapply IH.
  - destruct (is_FileExistsError e).
    + eapply mkdir_at_keeps_files; [exact H|]. by eapply IH.
    + injection H as <- <-. by eapply IH.
Qed.

(** X5: whatever its outcome, the startup step leaves every regular file
    with the content it had: it creates directories and does nothing
    else to the file system. *)
Theorem startup_keeps_files (w : World) (out : outcome unit) (w' : World)
    (q : path) (c : content) :
  startup w = (out, w') →
  lookup_path q (fs w) = Ok (File c) → lookup_path q (fs w') = Ok (File c).
Proof.
  rewrite startup_eq.
  destruct (exists_at (components output_dir) (fs w)).
  - by intros [= <- <-].
  - apply makedirs_rev_keeps_files. by vm_compute.
Qed.

Lemma components_source_file :
  components source_file = ["GenerateIcons"; "master-icon.png"].
Proof. reflexivity. Qed.

Lemma stat_source_file root :
  stat source_file root = lookup_path ["GenerateIcons"; "master-icon.png"] root.
Proof.
  unfold stat. destruct (decide (source_file = "")); [done|].
  assert (dir_required source_file = false) as -> by (vm_compute; reflexivity).
  rewrite resolve_plain by (vm_compute; reflexivity).
  rewrite components_source_file.
  by destruct (lookup_path ["GenerateIcons"; "master-icon.png"] root) as [[| |]|].
Qed.

(** Nothing exists at the output path, nor at [public]: the startup step
    creates the two directories. *)
Lemma startup_from_scratch w es :
  fs w = Dir true es → es !! "public" = None → 2 ≤ inodes w →
  startup w =
    (Returned tt,
     mkWorld (Dir true (<["public" := Dir true {[ "icons" := Dir true ∅ ]}]> es))
       (inodes w - 2) (open_files w)
       (trace w ++ [EvMkdir ["public"]; EvMkdir ["public"; "icons"]])).
Proof.
  destruct w as [root free opened tr]. cbn [fs inodes open_files trace].
  intros -> Hes Hfree.
  rewrite startup_eq, components_output_dir. unfold exists_at.
  cbn [fs lookup_path]. rewrite Hes.
  change (rev ["public"; "icons"]) with ["icons"; "public"].
  rewrite makedirs_rev_cons by by vm_compute. unfold exists_at.
  change (rev ["public"]) with ["public"]. cbn [fs lookup_path]. rewrite Hes.
  rewrite makedirs_rev_cons by by vm_compute.
  unfold mkdir_at at 1. cbn [fs inodes open_files trace].
  rewrite update_single, Hes.
  destruct free as [|[|free]]; [lia|lia|]. cbn [leaf_mkdir create pred].
  change (rev ["icons"; "public"]) with ["public"; "icons"].
  unfold mkdir_at. cbn [fs inodes open_files trace].
  rewrite update_cons, lookup_insert_eq, update_single, lookup_empty.
  cbn [leaf_mkdir create pred]. rewrite insert_insert_eq, insert_empty.
  do 2 f_equal; [lia|by rewrite <- app_assoc].
Qed.

(** The directory [public] is there without [icons]: the startup step
    creates [icons] in it, whatever else [public] holds. *)
Lemma startup_in_public w wr es es2 :
  fs w = Dir wr es → es !! "public" = Some (Dir true es2) →
  es2 !! "icons" = None → 1 ≤ inodes w →
  startup w =
    (Returned tt,
     mkWorld (Dir wr (<["public" := Dir true (<["icons" := Dir true ∅]> es2)]> es))
       (inodes w - 1) (open_files w)
       (trace w ++ [EvMkdir ["public"; "icons"]])).
Proof.
  destruct w as [root free opened tr]. cbn [fs inodes open_files trace].
  intros -> Hes Hes2 Hfree.
  rewrite startup_eq, components_output_dir. unfold exists_at.
  cbn [fs lookup_path]. rewrite Hes, Hes2.
  change (rev ["public"; "icons"]) with ["icons"; "public"].
  rewrite makedirs_rev_cons by by vm_compute. unfold exists_at.
  change (rev ["public"]) with ["public"]. cbn [fs lookup_path]. rewrite Hes.
  change (rev ["icons"; "public"]) with ["public"; "icons"].
  unfold mkdir_at. cbn [fs inodes open_files trace].
  rewrite update_cons, Hes, update_single, Hes2.
  destruct free as [|free]; [lia|]. cbn [leaf_mkdir create pred].
  do 2 f_equal. lia.
Qed.

(** X6: in a writable working directory without [public], and with two
    free inodes, the startup step creates [public] and then [public/icons]
    and returns; when [public] is there, writable and without [icons], and
    one inode is free, it creates [icons] in it, keeps what [public] holds,
    and returns. *)
Theorem startup_creates_what_is_missing (w : World) :
  (∀ es,
     fs w = Dir true es → es !! "public" = None → 2 ≤ inodes w →
     startup w =
       (Returned tt,
        mkWorld (Dir true (<["public" := Dir true {[ "icons" := Dir true ∅ ]}]> es))
          (inodes w - 2) (open_files w)
          (trace w ++ [EvMkdir ["public"]; EvMkdir ["public"; "icons"]]))) ∧
  (∀ wr es es2,
     fs w = Dir wr es → es !! "public" = Some (Dir true es2) →
     es2 !! "icons" = None → 1 ≤ inodes w →
     startup w =
       (Returned tt,
        mkWorld (Dir wr (<["public" := Dir true (<["icons" := Dir true ∅]> es2)]> es))
          (inodes w - 1) (open_files w)
          (trace w ++ [EvMkdir ["public"; "icons"]]))).
Proof.
  split; [apply startup_from_scratch|apply startup_in_public].
Qed.

(** *** The program as a whole *)

Lemma mkdir_at_other_root x r w out w' y q :
  mkdir_at (x :: r) w = (out, w') → y ≠ x →
  lookup_path (y :: q) (fs w') = lookup_path (y :: q) (fs w).
Proof.
  intros H Hne. destruct out as [[]|e].
  - apply mkdir_at_returned in H. by eapply update_lookup_other_root.
  - by apply mkdir_at_raised in H as ->.
Qed.

(** The startup step only acts below [public]. *)
Lemma startup_other_root w out w' y q :
  startup w = (out, w') → y ≠ "public" →
  lookup_path (y :: q) (fs w') = lookup_path (y :: q) (fs w).
Proof.
  intros H Hne. rewrite startup_eq, components_output_dir in H.
  destruct (exists_at ["public"; "icons"] (fs w)); [by injection H as _ <-|].
  change (rev ["public"; "icons"]) with ["icons"; "public"] in H.
  rewrite makedirs_rev_cons in H by by vm_compute.
  change (rev ["icons"; "public"]) with ["public"; "icons"] in H.
  destruct (exists_at (rev ["public"]) (fs w)); [by eapply mkdir_at_other_root|].
  rewrite makedirs_rev_cons in H by by vm_compute.
  destruct (mkdir_at ["public"] w) as [[[]|e] w2] eqn:Em.
  - rewrite (mkdir_at_other_root _ _ _ _ _ _ _ H Hne).
    by eapply mkdir_at_other_root.
  - destruct (is_FileExistsError e).
    + rewrite (mkdir_at_other_root _ _ _ _ _ _ _ H Hne).
      by eapply mkdir_at_other_root.
    + injection H as _ <-. by eapply mkdir_at_other_root.
Qed.

Lemma startup_keeps_source w out w' :
  startup w = (out, w') → stat source_file (fs w') = stat source_file (fs w).
Proof.
  intros H. rewrite !stat_source_file. by eapply startup_other_root.
Qed.

(** X7: a run of the program whose startup step returned, without an
    entry at the source path: the startup step is not held back by the
    missing source and does what it does in any run (the output path is a
    directory afterwards exactly if it was one or nothing was there); from
    there on the run is the [print] of the one diagnostic, and ends as that
    [print] ends. *)
Theorem main_without_source (w w1 : World) :
  startup w = (Returned tt, w1) →
  stat source_file (fs w) = Err ENOENT →
  main w = print (not_found_notice source_file) w1 ∧
  isdir (components output_dir) (fs w1) = isdir (components output_dir) (fs w) ||
                                          negb (exists_at (components output_dir) (fs w)).
Proof.
  intros Hs Hst. split.
  - unfold main, bind. rewrite Hs.
    assert (Image_open source_file w1 = (Raised FileNotFoundError, w1)) as Ho.
    { unfold Image_open. by rewrite (startup_keeps_source _ _ _ Hs), Hst. }
    by rewrite (generate_icons_not_opened _ _ _ _ Ho).
  - rewrite startup_eq in Hs.
    destruct (exists_at (components output_dir) (fs w)) eqn:Ex.
    + injection Hs as <-. by rewrite orb_false_r.
    + apply makedirs_rev_returned in Hs; [|by vm_compute].
      rewrite rev_involutive in Hs. by rewrite Hs, orb_true_r.
Qed.

Lemma source_is_no_icon :
  Forall (λ s, components source_file ≠ components (icon_file s)) sizes.
Proof. apply (bool_decide_unpack _). vm_compute. reflexivity. Qed.

(** A completed [try] block, run again on a source that is the same. *)
Lemma rerun_same src w w1 :
  generate_icons_try src w = (Returned tt, w1) →
  stat src (fs w1) = stat src (fs w) →
  ∃ w2, generate_icons src w1 = (Returned tt, w2) ∧
        fs w2 = fs w1 ∧ inodes w2 = inodes w1.
Proof.
  intros Htry Hsame.
  destruct (generate_icons_try_returned _ _ _ Htry)
    as (fmt & from & px & _ & _ & Hst & _ & _ & _ & Hfiles).
  set (img := mkImage from px (Some src)).
  set (w1o := mkWorld (fs w1) (inodes w1) (src :: open_files w1) (trace w1 ++ [EvOpen src])).
  assert (Image_open src w1 = (Returned img, w1o)) as Ho.
  { unfold Image_open. by rewrite Hsame, Hst. }
  assert (chain (process_size img) sizes w1o
            (mkWorld (fs w1o) (inodes w1o) (open_files w1o) (trace w1o ++ schedule sizes)))
    as Hc.
  { apply chain_again; [apply sizes_good|]. intros s Hs.
    rewrite <- stat_icon_file by by apply good_in_sizes. by apply Hfiles. }
  apply chain_for_each in Hc.
  eexists. split.
  { rewrite generate_icons_eq, (generate_icons_try_opened _ _ _ _ _ _ Ho Hc). done. }
  done.
Qed.

(** X9: the program is idempotent.  After a run in which the [try] block
    completed, a second run of the whole program completes too and leaves
    the file system and the free inodes as the first run left them: the
    startup step finds the directory, and the source image, which is no icon
    file, is as it was. *)
Theorem main_twice (w w0 w1 : World) :
  startup w = (Returned tt, w0) →
  generate_icons_try source_file w0 = (Returned tt, w1) →
  main w = (Returned tt, w1) ∧
  ∃ w2, main w1 = (Returned tt, w2) ∧ fs w2 = fs w1 ∧ inodes w2 = inodes w1.
Proof.
  intros Hs Htry.
  assert (generate_icons source_file w0 = (Returned tt, w1)) as Hrun
    by by rewrite generate_icons_eq, Htry.
  split; [unfold main, bind; by rewrite Hs|].
  assert (startup w1 = (Returned tt, w1)) as Hs1.
  { rewrite startup_eq. pose proof (startup_returned_exists _ _ Hs) as Hex.
    unfold exists_at in *.
    destruct (lookup_path (components output_dir) (fs w0)) as [m|] eqn:Em; [|done].
    by destruct (generate_icons_kind _ _ _ _ _ _ Hrun Em) as (m' & -> & _). }
  destruct (generate_icons_try_returned _ _ _ Htry)
    as (fmt & from & px & _ & _ & Hst & _).
  assert (stat source_file (fs w1) = stat source_file (fs w0)) as Hsame.
  { rewrite Hst. rewrite stat_source_file, <- components_source_file in *.
    eapply generate_icons_keeps_files; [exact Hrun|exact Hst|].
    pose proof source_is_no_icon as H. rewrite Forall_forall in H. exact H. }
  destruct (rerun_same _ _ _ Htry Hsame) as (w2 & Hrun2 & Hfs & Hin).
  exists w2. split; [|done]. unfold main, bind. by rewrite Hs1.
Qed.

Lemma mkdir_at_kind p w out w' q m :
  mkdir_at p w = (out, w') → lookup_path q (fs w) = Ok m →
  ∃ m', lookup_path q (fs w') = Ok m' ∧ is_dir_node m' = is_dir_node m.
Proof.
  intros H Hq. destruct out as [[]|e].
  - apply mkdir_at_returned in H.
    by eapply update_lookup_kind; [apply leaf_mkdir_safe|exact H|].
  - apply mkdir_at_raised in H as ->. by exists m.
Qed.

Lemma makedirs_rev_kind rp w out w' q m :
  plain rp = true →
  makedirs_rev rp w = (out, w') → lookup_path q (fs w) = Ok m →
  ∃ m', lookup_path q (fs w') = Ok m' ∧ is_dir_node m' = is_dir_node m.
Proof.
  revert w out w' m. induction rp as [|tail rhead IH]; intros w out w' m Hp H Hq.
  { simpl in H. injection H as _ <-. by exists m. }
  assert (∀ w2 m2, mkdir_at (rev (tail :: rhead)) w2 = (out, w') →
            lookup_path q (fs w2) = Ok m2 → is_dir_node m2 = is_dir_node m →
            ∃ m', lookup_path q (fs w') = Ok m' ∧ is_dir_node m' = is_dir_node m)
    as Hlast.
  { intros w2 m2 Hmk Hq2 Hk.
    destruct (mkdir_at_kind _ _ _ _ _ _ Hmk Hq2) as (m' & ? & ?).
    exists m'. split; [done|congruence]. }
  rewrite makedirs_rev_cons in H by done. apply plain_tail in Hp.
  destruct rhead as [|h r]; [by eapply Hlast|].
  destruct (exists_at (rev (h :: r)) (fs w)); [by eapply Hlast|].
  destruct (makedirs_rev (h :: r) w) as [[[]|e] w2] eqn:Er.
  - destruct (IH _ _ _ _ Hp Er Hq) as (m2 & ? & ?). by eapply Hlast.
  - destruct (is_FileExistsError e).
    + destruct (IH _ _ _ _ Hp Er Hq) as (m2 & ? & ?). by eapply Hlast.
    + injection H as <- <-. by eapply IH.
Qed.

(** X10: whatever its outcome, a run of the program removes nothing: what
    existed at a path before the run exists there after it, a directory
    still a directory and a regular file still a regular file. *)
Theorem main_removes_nothing (w : World) (out : outcome unit) (w' : World)
    (q : path) (m : node) :
  main w = (out, w') →
  lookup_path q (fs w) = Ok m →
  ∃ m', lookup_path q (fs w') = Ok m' ∧ is_dir_node m' = is_dir_node m.
Proof.
  intros Hmain Hq. unfold main, bind in Hmain.
  destruct (startup w) as [[[]|e] w1] eqn:Hs.
  - assert (∃ m1, lookup_path q (fs w1) = Ok m1 ∧ is_dir_node m1 = is_dir_node m)
      as (m1 & Hq1 & Hk1).
    { rewrite startup_eq in Hs.
      destruct (exists_at (components output_dir) (fs w)).
      - injection Hs as <-. by exists m.
      - eapply makedirs_rev_kind; [|exact Hs|exact Hq]. by vm_compute. }
    destruct (generate_icons_kind _ _ _ _ _ _ Hmain Hq1) as (m' & ? & ?).
    exists m'. split; [done|congruence].
  - injection Hmain as <- <-. rewrite startup_eq in Hs.
    destruct (exists_at (components output_dir) (fs w)); [done|].
    eapply makedirs_rev_kind; [|exact Hs|exact Hq]. by vm_compute.
Qed.

End Generator.

(** ** The claims on sample environments *)

(** C1 on [ready_world]: the run completes and the eight icons have the
    sizes of the list. *)
Lemma icons_have_requested_size_witness :
  let w' := (generate_icons_try first_sample source_file ready_world).2 in
  generate_icons_try first_sample source_file ready_world = (Returned tt, w') ∧
  generate_icons first_sample source_file ready_world = (Returned tt, w') ∧
  ∃ fmt from px,
    stat source_file (fs ready_world) = Ok (File (Encoded fmt from px)) ∧
    ∀ s, s ∈ sizes →
      stat (output_dir +:+ "/icon-" +:+ pretty s +:+ "x" +:+ pretty s +:+ ".png") (fs w')
      = Ok (File (Encoded PNG (s, s) (resized first_sample from px (s, s)))).
Proof.
  intros w'.
  assert (generate_icons_try first_sample source_file ready_world = (Returned tt, w')) as H
    by (vm_compute; reflexivity).
  split; [exact H|].
  exact (icons_have_requested_size first_sample source_file ready_world w' H).
Defined.





(** C4 as amended, on [fresh_world]. *)
Lemma output_directory_exists_after_run_witness :
  let r := main first_sample fresh_world in
  main first_sample fresh_world = (r.1, r.2) ∧
  (∀ c, stat output_dir (fs fresh_world) ≠ Ok (File c)) ∧
  (∀ e w1, startup fresh_world ≠ (Raised e, w1)) ∧
  ∃ w1,
    startup fresh_world = (Returned tt, w1) ∧
    isdir (components output_dir) (fs w1) = true ∧
    generate_icons first_sample source_file w1 = (r.1, r.2) ∧
    isdir (components output_dir) (fs r.2) = true.
Proof.
  intros r.
  assert (main first_sample fresh_world = (r.1, r.2)) as H1 by (vm_compute; reflexivity).
  assert (∀ c, stat output_dir (fs fresh_world) ≠ Ok (File c)) as H2
    by (intros c; vm_compute; discriminate).
  assert (∀ e w1, startup fresh_world ≠ (Raised e, w1)) as H3
    by (intros e w1; vm_compute; discriminate).
  split_and!; [exact H1|exact H2|exact H3|].
  exact (output_directory_exists_after_run first_sample fresh_world r.1 r.2 H1 H2 H3).
Defined.

(** C4 as stated fails.  When the output path names a regular file the
    startup step creates nothing, the run returns normally (here the source
    is missing), and there is no output directory after it.  When the output
    path runs through a regular file the startup step faults and nothing
    exists at the output path after the run. *)
Lemma output_directory_claim_fails :
  (let r := main first_sample file_at_output in
   r.1 = Returned tt ∧ isdir (components output_dir) (fs r.2) = false) ∧
  (let r := main first_sample file_above_output in
   r.1 = Raised NotADirectoryError ∧
   exists_at (components output_dir) (fs r.2) = false).
Proof. split; (split; vm_compute; reflexivity). Qed.

(** C5 on [ready_world]: the second run leaves the files of the first. *)
Lemma second_run_changes_nothing_witness :
  let w1 := (generate_icons_try first_sample source_file ready_world).2 in
  generate_icons_try first_sample source_file ready_world = (Returned tt, w1) ∧
  stat source_file (fs w1) = stat source_file (fs ready_world) ∧
  ∃ w2,
    generate_icons first_sample source_file w1 = (Returned tt, w2) ∧
    trace w2 = trace w1 ++ [EvOpen source_file] ++ schedule sizes ++ [EvClose source_file] ∧
    fs w2 = fs w1 ∧ inodes w2 = inodes w1.
Proof.
  intros w1.
  assert (generate_icons_try first_sample source_file ready_world = (Returned tt, w1)) as H1
    by (vm_compute; reflexivity).
  assert (stat source_file (fs w1) = stat source_file (fs ready_world)) as H2
    by (vm_compute; reflexivity).
  split_and!; [exact H1|exact H2|].
  exact (second_run_changes_nothing first_sample source_file ready_world w1 H1 H2).
Defined.

(** C6 on [tight_world], where the save of the fourth size raises: the
    source is closed all the same. *)
Lemma source_handle_released_witness :
  let r := generate_icons first_sample source_file tight_world in
  generate_icons first_sample source_file tight_world = (r.1, r.2) ∧
  r.1 = Raised OSError_ENOSPC ∧
  open_files r.2 = open_files tight_world ∧
  ∃ evs, trace r.2 = trace tight_world ++ evs ∧
         (EvOpen source_file ∈ evs → EvClose source_file ∈ evs).
Proof.
  intros r.
  assert (generate_icons first_sample source_file tight_world = (r.1, r.2)) as H
    by (vm_compute; reflexivity).
  split_and!; [exact H|vm_compute; reflexivity| |];
    apply (source_handle_released first_sample source_file tight_world r.1 r.2 H).
Defined.

(** C7 on [ready_world], whose master image is stored as JPEG: the run
    saves the eight icons and each holds a PNG encoding. *)
Lemma outputs_are_png_witness :
  let r := generate_icons first_sample source_file ready_world in
  stat source_file (fs ready_world) = Ok (File (Encoded JPEG (800, 600)%Z [7; 8; 9]%N)) ∧
  generate_icons first_sample source_file ready_world = (r.1, r.2) ∧
  generate_icons_try first_sample source_file ready_world = (Returned tt, r.2) ∧
  ∃ evs, trace r.2 = trace ready_world ++ evs ∧
    saved evs = icon_file <$> sizes ∧
    ∀ f, f ∈ saved evs →
      ∃ c, stat f (fs r.2) = Ok (File c) ∧ format_of c = Some PNG.
Proof.
  intros r.
  assert (stat source_file (fs ready_world)
          = Ok (File (Encoded JPEG (800, 600)%Z [7; 8; 9]%N))) as H1
    by (vm_compute; reflexivity).
  assert (generate_icons first_sample source_file ready_world = (r.1, r.2)) as H2
    by (vm_compute; reflexivity).
  assert (generate_icons_try first_sample source_file ready_world = (Returned tt, r.2)) as H3
    by (vm_compute; reflexivity).
  split_and!; [exact H1|exact H2|exact H3|].
  destruct (outputs_are_png first_sample source_file ready_world _ _ _ r.1 r.2 H1 H2)
    as (evs & pre & rest & Ht & E & Hs & Hall & Hpng).
  exists evs. split_and!; [exact Ht| |exact Hpng].
  rewrite Hs. f_equal. exact (Hall H3).
Defined.

(** C8 on [ready_world]. *)
Lemma sizes_processed_in_order_witness :
  let img := mkImage (800, 600)%Z [7; 8; 9]%N (Some source_file) in
  let w0 := (Image_open source_file ready_world).2 in
  let r := generate_icons first_sample source_file ready_world in
  Image_open source_file ready_world = (Returned img, w0) ∧
  generate_icons first_sample source_file ready_world = (r.1, r.2) ∧
  ∃ pre rest,
    sizes = pre ++ rest ∧
    ((rest = [] ∧ r.1 = Returned tt ∧
      trace r.2 = trace ready_world ++ [EvOpen source_file] ++ schedule sizes ++
                  [EvClose source_file]) ∨
     (∃ s rest' diag,
        rest = s :: rest' ∧
        trace r.2 = trace ready_world ++ [EvOpen source_file] ++ schedule pre ++
                    [EvResize (s, s); EvClose source_file] ++ diag ∧
        (diag = [] ∨ diag = [EvPrint (not_found_notice source_file)]))).
Proof.
  intros img w0 r.
  assert (Image_open source_file ready_world = (Returned img, w0)) as H1
    by (vm_compute; reflexivity).
  assert (generate_icons first_sample source_file ready_world = (r.1, r.2)) as H2
    by (vm_compute; reflexivity).
  split_and!; [exact H1|exact H2|].
  exact (sizes_processed_in_order first_sample source_file ready_world img w0 r.1 r.2 H1 H2).
Defined.

(** C9 on [tight_world]: three icons are saved, the save of the fourth
    finds no free inode, and the three icons are there after the call. *)
Lemma earlier_icons_survive_fault_witness :
  let img := mkImage (800, 600)%Z [7; 8; 9]%N (Some source_file) in
  let w0 := (Image_open source_file tight_world).2 in
  let w1 := (for_each [72; 96; 128]%Z (process_size first_sample img) w0).2 in
  let w2 := (process_size first_sample img 144 w1).2 in
  Image_open source_file tight_world = (Returned img, w0) ∧
  sizes = [72; 96; 128]%Z ++ 144%Z :: [152; 192; 384; 512]%Z ∧
  for_each [72; 96; 128]%Z (process_size first_sample img) w0 = (Returned tt, w1) ∧
  process_size first_sample img 144 w1 = (Raised OSError_ENOSPC, w2) ∧
  ∃ out w',
    generate_icons first_sample source_file tight_world = (out, w') ∧
    fs w' = fs w1 ∧
    ∀ s', s' ∈ [72; 96; 128]%Z →
      stat (icon_file s') (fs w') = Ok (File (icon_content first_sample img s')).
Proof.
  intros img w0 w1 w2.
  assert (Image_open source_file tight_world = (Returned img, w0)) as H1
    by (vm_compute; reflexivity).
  assert (sizes = [72; 96; 128]%Z ++ 144%Z :: [152; 192; 384; 512]%Z) as H2
    by reflexivity.
  assert (for_each [72; 96; 128]%Z (process_size first_sample img) w0 = (Returned tt, w1))
    as H3 by (vm_compute; reflexivity).
  assert (process_size first_sample img 144 w1 = (Raised OSError_ENOSPC, w2)) as H4
    by (vm_compute; reflexivity).
  split_and!; [exact H1|exact H2|exact H3|exact H4|].
  exact (earlier_icons_survive_fault first_sample source_file tight_world img w0
           [72; 96; 128]%Z 144%Z [152; 192; 384; 512]%Z w1 OSError_ENOSPC w2 H1 H2 H3 H4).
Defined.



(** ** The further properties on sample environments *)

(** X1 on [ready_world]: the master image is as it was after the run. *)
Lemma other_files_untouched_witness :
  let r := generate_icons first_sample source_file ready_world in
  generate_icons first_sample source_file ready_world = (r.1, r.2) ∧
  lookup_path (components source_file) (fs ready_world) = Ok (File master) ∧
  (∀ s, s ∈ sizes → components source_file ≠ components (icon_file s)) ∧
  lookup_path (components source_file) (fs r.2) = Ok (File master).
Proof.
  intros r.
  assert (generate_icons first_sample source_file ready_world = (r.1, r.2)) as H1
    by (vm_compute; reflexivity).
  assert (lookup_path (components source_file) (fs ready_world) = Ok (File master)) as H2
    by (vm_compute; reflexivity).
  assert (∀ s, s ∈ sizes → components source_file ≠ components (icon_file s)) as H3
    by (apply Forall_forall, source_is_no_icon).
  split_and!; [exact H1|exact H2|exact H3|].
  exact (other_files_untouched first_sample source_file ready_world r.1 r.2
           (components source_file) master H1 H2 H3).
Defined.

(** X4 on [fresh_world]. *)
Lemma startup_idempotent_witness :
  let w1 := (startup fresh_world).2 in
  startup fresh_world = (Returned tt, w1) ∧ startup w1 = (Returned tt, w1).
Proof.
  intros w1.
  assert (startup fresh_world = (Returned tt, w1)) as H by (vm_compute; reflexivity).
  split; [exact H|]. exact (startup_idempotent fresh_world w1 H).
Defined.

(** X5 on [fresh_world]: the master image is as it was after the startup
    step. *)
Lemma startup_keeps_files_witness :
  let r := startup fresh_world in
  startup fresh_world = (r.1, r.2) ∧
  lookup_path (components source_file) (fs fresh_world) = Ok (File master) ∧
  lookup_path (components source_file) (fs r.2) = Ok (File master).
Proof.
  intros r.
  assert (startup fresh_world = (r.1, r.2)) as H1 by (vm_compute; reflexivity).
  assert (lookup_path (components source_file) (fs fresh_world) = Ok (File master)) as H2
    by (vm_compute; reflexivity).
  split_and!; [exact H1|exact H2|].
  exact (startup_keeps_files fresh_world r.1 r.2 (components source_file) master H1 H2).
Defined.

(** X6 on [fresh_world], where both directories are missing, and on
    [public_without_icons], where [icons] is. *)
Lemma startup_creates_what_is_missing_witness :
  (fs fresh_world = Dir true with_master ∧ with_master !! "public" = None ∧
   2 ≤ inodes fresh_world ∧
   startup fresh_world =
     (Returned tt,
      mkWorld (Dir true (<["public" := Dir true {[ "icons" := Dir true ∅ ]}]> with_master))
        (inodes fresh_world - 2) (open_files fresh_world)
        (trace fresh_world ++ [EvMkdir ["public"]; EvMkdir ["public"; "icons"]]))) ∧
  (let es := <["public" := Dir true {[ "robots.txt" := File (Undecodable "") ]}]> with_master in
   let es2 : gmap string node := {[ "robots.txt" := File (Undecodable "") ]} in
   fs public_without_icons = Dir true es ∧ es !! "public" = Some (Dir true es2) ∧
   es2 !! "icons" = None ∧ 1 ≤ inodes public_without_icons ∧
   startup public_without_icons =
     (Returned tt,
      mkWorld (Dir true (<["public" := Dir true (<["icons" := Dir true ∅]> es2)]> es))
        (inodes public_without_icons - 1) (open_files public_without_icons)
        (trace public_without_icons ++ [EvMkdir ["public"; "icons"]]))).
Proof.
  split.
  - assert (fs fresh_world = Dir true with_master) as H1 by reflexivity.
    assert (with_master !! "public" = None) as H2 by (vm_compute; reflexivity).
    assert (2 ≤ inodes fresh_world) as H3 by (simpl; lia).
    split_and!; [exact H1|exact H2|exact H3|].
    exact (proj1 (startup_creates_what_is_missing fresh_world) with_master H1 H2 H3).
  - intros es es2.
    assert (fs public_without_icons = Dir true es) as H1 by reflexivity.
    assert (es !! "public" = Some (Dir true es2)) as H2 by (vm_compute; reflexivity).
    assert (es2 !! "icons" = None) as H3 by (vm_compute; reflexivity).
    assert (1 ≤ inodes public_without_icons) as H4 by (simpl; lia).
    split_and!; [exact H1|exact H2|exact H3|exact H4|].
    exact (proj2 (startup_creates_what_is_missing public_without_icons)
             true es es2 H1 H2 H3 H4).
Defined.

(** X7 on [empty_world]. *)
Lemma main_without_source_witness :
  let w1 := (startup empty_world).2 in
  startup empty_world = (Returned tt, w1) ∧
  stat source_file (fs empty_world) = Err ENOENT ∧
  main first_sample empty_world = print (not_found_notice source_file) w1 ∧
  isdir (components output_dir) (fs w1)
    = isdir (components output_dir) (fs empty_world) ||
      negb (exists_at (components output_dir) (fs empty_world)).
Proof.
  intros w1.
  assert (startup empty_world = (Returned tt, w1)) as H1 by (vm_compute; reflexivity).
  assert (stat source_file (fs empty_world) = Err ENOENT) as H2 by reflexivity.
  split_and!; [exact H1|exact H2| |];
    apply (main_without_source first_sample empty_world w1 H1 H2).
Defined.

(** X9 on [fresh_world]. *)
Lemma main_twice_witness :
  let w0 := (startup fresh_world).2 in
  let w1 := (generate_icons_try first_sample source_file w0).2 in
  startup fresh_world = (Returned tt, w0) ∧
  generate_icons_try first_sample source_file w0 = (Returned tt, w1) ∧
  main first_sample fresh_world = (Returned tt, w1) ∧
  ∃ w2, main first_sample w1 = (Returned tt, w2) ∧ fs w2 = fs w1 ∧ inodes w2 = inodes w1.
Proof.
  intros w0 w1.
  assert (startup fresh_world = (Returned tt, w0)) as H1 by (vm_compute; reflexivity).
  assert (generate_icons_try first_sample source_file w0 = (Returned tt, w1)) as H2
    by (vm_compute; reflexivity).
  split_and!; [exact H1|exact H2| |];
    apply (main_twice first_sample fresh_world w0 w1 H1 H2).
Defined.

(** X10 on [fresh_world]: the directory of the master image is still a
    directory after the run. *)
Lemma main_removes_nothing_witness :
  let r := main first_sample fresh_world in
  let m := Dir true {[ "master-icon.png" := File master ]} in
  main first_sample fresh_world = (r.1, r.2) ∧
  lookup_path ["GenerateIcons"] (fs fresh_world) = Ok m ∧
  ∃ m', lookup_path ["GenerateIcons"] (fs r.2) = Ok m' ∧
        is_dir_node m' = is_dir_node m.
Proof.
  intros r m.
  assert (main first_sample fresh_world = (r.1, r.2)) as H1 by (vm_compute; reflexivity).
  assert (lookup_path ["GenerateIcons"] (fs fresh_world) = Ok m) as H2
    by (vm_compute; reflexivity).
  split_and!; [exact H1|exact H2|].
  exact (main_removes_nothing first_sample fresh_world r.1 r.2 ["GenerateIcons"] m H1 H2).
Defined.
